(** * The data pipeline of the client dashboard (js/data-loader.js)

    A shallow embedding of the [DataLoader] class: address cleaning and
    region classification, the geocode cache and its persistence, the
    geocoder with its fallbacks, row processing, the per-year and the
    multi-year loaders, and the analytics with its insights.

    Conventions of the embedding.
    - A JavaScript string is a [string]; the case maps and the white space
      class are those of the ASCII range.
    - [this.cache], [this.geocodeCache], [allData.byYear] and
      [analytics.serviceTypes] are finite maps ([gmap]); [regionStats],
      whose enumeration order decides [topRegion], is an association list in
      insertion order.
    - Methods that read or write [this], [localStorage] or the geocoding
      service are state transformers over [Sys]; a method that can throw
      returns a [Result].
    - Counts are natural numbers; the two percentages are computed on
      binary64 floats, as the engine does. *)

From Stdlib Require Import Ascii String Floats ZArith QArith.
From stdpp Require Import strings gmap list pretty.

Local Open Scope string_scope.
Local Open Scope list_scope.
Local Open Scope nat_scope.

(** ** Strings *)

Module JS.

Definition chars (s : string) : list ascii := list_ascii_of_string s.
Definition str (l : list ascii) : string := string_of_list_ascii l.

Definition code (c : ascii) : nat := nat_of_ascii c.

(** [\s], and what [trim] strips: tab, line feed, vertical tab, form feed,
    carriage return, space. *)
Definition is_space (c : ascii) : bool :=
  ((9 <=? code c)%nat && (code c <=? 13)%nat) || (code c =? 32)%nat.

Definition is_comma (c : ascii) : bool := (code c =? 44)%nat.
Definition is_newline (c : ascii) : bool := (code c =? 10)%nat.

Definition upper_char (c : ascii) : ascii :=
  if (97 <=? code c)%nat && (code c <=? 122)%nat then ascii_of_nat (code c - 32) else c.

Definition lower_char (c : ascii) : ascii :=
  if (65 <=? code c)%nat && (code c <=? 90)%nat then ascii_of_nat (code c + 32) else c.

Definition toUpperCase (s : string) : string := str (map upper_char (chars s)).
Definition toLowerCase (s : string) : string := str (map lower_char (chars s)).

Fixpoint starts_with (k s : list ascii) : bool :=
  match k, s with
  | [], _ => true
  | _ :: _, [] => false
  | a :: k', b :: s' => Ascii.eqb a b && starts_with k' s'
  end.

Fixpoint includes_chars (s k : list ascii) : bool :=
  starts_with k s ||
  match s with
  | [] => false
  | _ :: s' => includes_chars s' k
  end.

(** [s.includes(k)] *)
Definition includes (s k : string) : bool := includes_chars (chars s) (chars k).

Fixpoint skip_spaces (s : list ascii) : list ascii :=
  match s with
  | c :: r => if is_space c then skip_spaces r else s
  | [] => []
  end.

Definition trim_chars (s : list ascii) : list ascii :=
  rev (skip_spaces (rev (skip_spaces s))).

(** [s.trim()] *)
Definition trim (s : string) : string := str (trim_chars (chars s)).

(** [s.replace(/\n/g, ', ')] *)
Definition replace_newlines (s : list ascii) : list ascii :=
  flat_map (fun c => if is_newline c then chars ", " else [c]) s.

(** [s.replace(/,\s*,/g, ',')]: scanning from the left, a comma followed by
    a run of white space and a second comma is replaced by one comma, and
    the scan resumes after the second comma.  [\s*] is greedy and a comma
    is not white space, so the match at a comma is decided by the character
    after the whole run.  The fuel is the length of the text. *)
Fixpoint collapse_commas (fuel : nat) (s : list ascii) : list ascii :=
  match fuel, s with
  | S n, c :: r =>
      if is_comma c then
        match skip_spaces r with
        | d :: r' => if is_comma d then c :: collapse_commas n r'
                     else c :: collapse_commas n r
        | [] => c :: collapse_commas n r
        end
      else c :: collapse_commas n r
  | _, _ => []
  end.

(** [s.replace(/,\s*$/, '')]: the leftmost comma after which only white
    space remains is removed together with that white space. *)
Fixpoint strip_trailing_comma (s : list ascii) : list ascii :=
  match s with
  | [] => []
  | c :: r => if is_comma c && forallb is_space r then []
              else c :: strip_trailing_comma r
  end.

(** Values that the code stores and later tests for truthiness. *)
Inductive value :=
| Undefined
| Str (s : string)
| Bool (b : bool).

Definition truthy (v : value) : bool :=
  match v with
  | Undefined => false
  | Str s => negb (String.eqb s "")
  | Bool b => b
  end.

(** [a && b] *)
Definition and (a : value) (b : value) : value := if truthy a then b else a.

(** [a || b] on a value that is an object or [null]/[undefined]. *)
Definition or {A} (a b : option A) : option A :=
  match a with Some _ => a | None => b end.

End JS.

(** ** Data model *)

(** The region codes that [extractState] can return. *)
Inductive StateCode :=
| NSW | QLD | VIC | SA | WA | TAS | NT | ACT | Singapore | Dubai | Unknown.

#[global] Instance StateCode_eq_dec : EqDecision StateCode.
Proof. solve_decision. Defined.

(** The string a region code is in the source. *)
Definition state_name (s : StateCode) : string :=
  match s with
  | NSW => "NSW" | QLD => "QLD" | VIC => "VIC" | SA => "SA" | WA => "WA"
  | TAS => "TAS" | NT => "NT" | ACT => "ACT"
  | Singapore => "Singapore" | Dubai => "Dubai" | Unknown => "Unknown"
  end.

(** [{ lat, lng }]: a latitude and a longitude, finite numbers whose value
    plays no part in the pipeline. *)
Record Coords := { lat : Q; lng : Q }.

Inductive MapDisplay := both | client_only | skip.

(** A parsed CSV row: column name to (trimmed) text; a column that the row
    lacks is [undefined]. *)
Abbreviation RawRow := (gmap string string).

(** The object built by the [map] callback of [processData]. *)
Record CleanedRow := {
  name : string;
  clientAddress : string;
  propertyAddress : string;
  serviceType : string;
  dateSigned : string;
  datePurchase : string;
  email : string;
  notes : string;
  clientState : StateCode;
  propertyState : StateCode;
  hasClientLocation : JS.value;
  hasPropertyLocation : JS.value;
  mapDisplayType : MapDisplay;
  year : option string
}.

(** [{ ...row, clientCoords, propertyCoords, isInterstate }] *)
Record ClientRecord := {
  row : CleanedRow;
  clientCoords : option Coords;
  propertyCoords : option Coords;
  isInterstate : bool
}.

(** [{ ...record, year: year }] *)
Definition with_year (y : string) (r : ClientRecord) : ClientRecord :=
  let c := row r in
  {| row := {| name := name c; clientAddress := clientAddress c;
               propertyAddress := propertyAddress c; serviceType := serviceType c;
               dateSigned := dateSigned c; datePurchase := datePurchase c;
               email := email c; notes := notes c;
               clientState := clientState c; propertyState := propertyState c;
               hasClientLocation := hasClientLocation c;
               hasPropertyLocation := hasPropertyLocation c;
               mapDisplayType := mapDisplayType c;
               year := Some y |};
     clientCoords := clientCoords r;
     propertyCoords := propertyCoords r;
     isInterstate := isInterstate r |}.

(** ** Address normalisation *)

Definition cleanAddress (address : string) : string :=
  if String.eqb address "" then ""
  else
    let trimmed := JS.trim_chars (JS.chars address) in
    let joined := JS.replace_newlines trimmed in
    let collapsed := JS.collapse_commas (length joined) joined in
    JS.str (JS.strip_trailing_comma collapsed).

(** [Object.entries(stateMap)]: the keys are not integer-like, so they are
    enumerated in the order in which the literal lists them. *)
Definition stateMap : list (string * StateCode) :=
  [("NSW", NSW); ("QLD", QLD); ("VIC", VIC); ("SA", SA);
   ("WA", WA); ("TAS", TAS); ("NT", NT); ("ACT", ACT)].

Definition extractState (address : string) : StateCode :=
  if String.eqb address "" then Unknown
  else
    match List.find (fun entry => JS.includes (JS.toUpperCase address) (fst entry)) stateMap with
    | Some entry => snd entry
    | None =>
        if JS.includes (JS.toLowerCase address) "singapore" then Singapore
        else if JS.includes (JS.toLowerCase address) "dubai" then Dubai
        else Unknown
    end.

Definition determineMapDisplayType (hasClientAddress hasPropertyAddress : JS.value) : MapDisplay :=
  if JS.truthy hasClientAddress && JS.truthy hasPropertyAddress then both
  else if JS.truthy hasClientAddress && negb (JS.truthy hasPropertyAddress) then client_only
  else if negb (JS.truthy hasClientAddress) && JS.truthy hasPropertyAddress then skip
  else skip.

(** ** Row cleaning *)

(** [row[column]] *)
Definition field (row : RawRow) (column : string) : JS.value :=
  match row !! column with
  | Some text => JS.Str text
  | None => JS.Undefined
  end.

(** The text of a column, where the code has already tested that it is one. *)
Definition text (row : RawRow) (column : string) : string :=
  default "" (row !! column).

(** [row[column]?.trim() || fallback] *)
Definition trimmed_or (row : RawRow) (column fallback : string) : string :=
  let t := JS.trim (text row column) in
  if String.eqb t "" then fallback else t.

Definition hasClientAddress (row : RawRow) : JS.value :=
  JS.and (field row "Address")
    (JS.and (JS.Str (JS.trim (text row "Address")))
            (JS.Bool (negb (String.eqb (text row "Address") "No address in contract")))).

Definition hasPropertyAddress (row : RawRow) : JS.value :=
  JS.and (field row "Property Purchased")
         (JS.Str (JS.trim (text row "Property Purchased"))).

(** The [filter] callback of [processData]. *)
Definition hasName (row : RawRow) : bool :=
  JS.truthy (JS.and (field row "Name") (JS.Str (JS.trim (text row "Name")))).

(** The [map] callback of [processData]. *)
Definition cleanRow (year : option string) (row : RawRow) : CleanedRow :=
  let hasClient := hasClientAddress row in
  let hasProperty := hasPropertyAddress row in
  {| name := trimmed_or row "Name" "Unknown";
     clientAddress := if JS.truthy hasClient then cleanAddress (text row "Address") else "";
     propertyAddress :=
       if JS.truthy hasProperty then cleanAddress (text row "Property Purchased") else "";
     serviceType := trimmed_or row "Type of Service" "Unknown";
     dateSigned := trimmed_or row "Date Signed" "";
     datePurchase := trimmed_or row "Date of Purchase" "";
     email := trimmed_or row "Email" "";
     notes := trimmed_or row "Notes" "";
     clientState := if JS.truthy hasClient then extractState (text row "Address") else Unknown;
     propertyState :=
       if JS.truthy hasProperty then extractState (text row "Property Purchased") else Unknown;
     hasClientLocation := hasClient;
     hasPropertyLocation := hasProperty;
     mapDisplayType := determineMapDisplayType hasClient hasProperty;
     year := year |}.

(** ** Durable storage and the JSON of the geocode cache *)

#[local] Unset Elimination Schemes.
Inductive json :=
| JNull
| JNumber (q : Q)
| JString (s : string)
| JArray (items : list json)
| JObject (members : list (string * json)).
#[local] Set Elimination Schemes.

(** The text kept under a key of [localStorage], represented by what
    [JSON.parse] makes of it: a JSON value, or a syntax error. *)
Inductive StoredText :=
| Json (j : json)
| Garbled.

(** [localStorage]; [setItem] throws when the store does not accept the
    write (quota exceeded, storage disabled). *)
Record Storage := {
  items : gmap string StoredText;
  accepts_writes : bool
}.

Definition getItem (st : Storage) (key : string) : option StoredText := items st !! key.

Definition setItem (st : Storage) (key : string) (value : StoredText) : option Storage :=
  if accepts_writes st
  then Some {| items := <[key := value]> (items st); accepts_writes := true |}
  else None.

Definition removeItem (st : Storage) (key : string) : Storage :=
  {| items := delete key (items st); accepts_writes := accepts_writes st |}.

(** A cached value: a coordinate object or [null]. *)
Definition json_of_value (v : option Coords) : json :=
  match v with
  | Some c => JObject [("lat", JNumber (lat c)); ("lng", JNumber (lng c))]
  | None => JNull
  end.

(** [JSON.stringify([...map])]: the map is spread into an array of
    [[key, value]] pairs. *)
Definition json_of_entries (entries : list (string * option Coords)) : json :=
  JArray (map (fun e => JArray [JString (fst e); json_of_value (snd e)]) entries).

Definition value_of_json (j : json) : option (option Coords) :=
  match j with
  | JNull => Some None
  | JObject [("lat", JNumber a); ("lng", JNumber b)] => Some (Some {| lat := a; lng := b |})
  | _ => None
  end.

Definition entry_of_json (j : json) : option (string * option Coords) :=
  match j with
  | JArray [JString k; v] =>
      match value_of_json v with
      | Some v' => Some (k, v')
      | None => None
      end
  | _ => None
  end.

(** The entries spelled by a parsed text.  Text that parses but is not an
    array of [[key, null]] or [[key, {lat, lng}]] pairs is not text that this
    loader writes; it is read as unusable. *)
Definition entries_of_json (j : json) : option (list (string * option Coords)) :=
  match j with
  | JArray l => mapM entry_of_json l
  | _ => None
  end.

(** [new Map(entries)]: the entries are set one after the other, so a later
    entry for a key replaces an earlier one. *)
Definition Map_of_entries (entries : list (string * option Coords)) : gmap string (option Coords) :=
  foldl (fun m e => <[fst e := snd e]> m) ∅ entries.

(** ** The loader and its surroundings *)

(** The fields of a [DataLoader] that change. *)
Record DataLoader := {
  cache : gmap string (list ClientRecord);
  geocodeCache : gmap string (option Coords)
}.

(** One use of [geocoder.geocode]: the callback is run with a status and a
    result list, or an exception is thrown in the [try] block. *)
Inductive GeocoderRun :=
| Callback (status : string) (results : list Coords)
| Throws.

(** What [fetch] does for a path: it rejects, or resolves to a response
    whose body is represented by the rows PapaParse makes of it. *)
Inductive FetchReply :=
| NetworkError (message : string)
| Response (ok : bool) (statusText : string) (rows : list RawRow).

(** What the page does not decide: [window.google] (absent, or a geocoder
    whose answer may depend on the requests made before), and the files
    behind [fetch]. *)
Record World := {
  google : option (list string -> string -> GeocoderRun);
  fetch : string -> FetchReply
}.

(** The state a method runs in: the loader, [localStorage], and the log of
    the addresses sent to the geocoding service. *)
Record Sys := {
  loader : DataLoader;
  localStorage : Storage;
  requests : list string
}.

Definition fallbackCoords : gmap string Coords :=
  list_to_map
    [("NSW", {| lat := -33.8688; lng := 151.2093 |});
     ("QLD", {| lat := -27.4698; lng := 153.0251 |});
     ("VIC", {| lat := -37.8136; lng := 144.9631 |});
     ("SA", {| lat := -34.9285; lng := 138.6007 |});
     ("WA", {| lat := -31.9505; lng := 115.8605 |});
     ("TAS", {| lat := -42.8821; lng := 147.3272 |});
     ("NT", {| lat := -12.4634; lng := 130.8456 |});
     ("ACT", {| lat := -35.2809; lng := 149.1300 |});
     ("Singapore", {| lat := 1.3521; lng := 103.8198 |});
     ("Dubai", {| lat := 25.2048; lng := 55.2708 |});
     ("Unknown", {| lat := -25.2744; lng := 133.7751 |})]%Q.

(** [loadGeocodeCache]: a missing key, an empty text, a syntax error and an
    unusable value all give an empty map. *)
Definition loadGeocodeCache (st : Storage) : gmap string (option Coords) :=
  match getItem st "geocodeCache" with
  | Some (Json j) =>
      match entries_of_json j with
      | Some entries => Map_of_entries entries
      | None => ∅
      end
  | Some Garbled => ∅
  | None => ∅
  end.

(** [new DataLoader()] *)
Definition new_DataLoader (st : Storage) : DataLoader :=
  {| cache := ∅; geocodeCache := loadGeocodeCache st |}.

(** A method that does not throw. *)
Definition M (A : Type) : Type := Sys -> A * Sys.

#[global] Instance M_ret : MRet M := fun A a s => (a, s).
#[global] Instance M_bind : MBind M := fun A B f m s => let '(a, s') := m s in f a s'.

Definition get_loader : M DataLoader := fun s => (loader s, s).

Definition set_loader (d : DataLoader) : M unit := fun s =>
  (tt, {| loader := d; localStorage := localStorage s; requests := requests s |}).

(** [this.geocodeCache.set(key, value)] *)
Definition geocodeCache_set (key : string) (value : option Coords) : M unit :=
  d ← get_loader;
  set_loader {| cache := cache d; geocodeCache := <[key := value]> (geocodeCache d) |}.

(** [this.cache.set(year, records)] *)
Definition cache_set (year : string) (records : list ClientRecord) : M unit :=
  d ← get_loader;
  set_loader {| cache := <[year := records]> (cache d); geocodeCache := geocodeCache d |}.

(** [saveGeocodeCache]: a failing write is caught and only logged.  The
    pairs are written in the order of the finite map; the order of the pairs
    plays no part in what [new Map] makes of them. *)
Definition saveGeocodeCache : M unit := fun s =>
  let text := Json (json_of_entries (map_to_list (geocodeCache (loader s)))) in
  match setItem (localStorage s) "geocodeCache" text with
  | Some st => (tt, {| loader := loader s; localStorage := st; requests := requests s |})
  | None => (tt, s)
  end.

(** The geocoder is asked for an address; the request is logged. *)
Definition ask_geocoder (geocode : list string -> string -> GeocoderRun) (address : string)
  : M GeocoderRun := fun s =>
  (geocode (requests s) address,
   {| loader := loader s; localStorage := localStorage s;
      requests := requests s ++ [address] |}).

Definition geocodeAddress (w : World) (address : string) : M (option Coords) :=
  if String.eqb address "" then mret None
  else
    match google w with
    | None => mret None
    | Some geocode =>
        let cacheKey := JS.toLowerCase address in
        d ← get_loader;
        match geocodeCache d !! cacheKey with
        | Some cached => mret cached
        | None =>
            run ← ask_geocoder geocode address;
            match run with
            | Throws => mret None
            | Callback status results =>
                let result :=
                  if String.eqb status "OK" then head results else None in
                geocodeCache_set cacheKey result;;
                saveGeocodeCache;;
                mret result
            end
        end
    end.

(** The body of the loop of [addGeocoding] for one cleaned row. *)
Definition geocodeRow (w : World) (r : CleanedRow) : M ClientRecord :=
  clientCoords ←
    (if JS.truthy (hasClientLocation r) && negb (String.eqb (clientAddress r) "") then
       found ← geocodeAddress w (clientAddress r);
       mret (JS.or found
               (JS.or (fallbackCoords !! state_name (clientState r))
                      (fallbackCoords !! "Unknown")))
     else mret None);
  propertyCoords ←
    (if JS.truthy (hasPropertyLocation r) && negb (String.eqb (propertyAddress r) "") then
       found ← geocodeAddress w (propertyAddress r);
       mret (JS.or found
               (JS.or (fallbackCoords !! state_name (propertyState r))
                      (fallbackCoords !! "Unknown")))
     else mret None);
  mret {| row := r;
          clientCoords := clientCoords;
          propertyCoords := propertyCoords;
          isInterstate :=
            bool_decide (clientState r ≠ Unknown) && bool_decide (propertyState r ≠ Unknown)
            && bool_decide (clientState r ≠ propertyState r) |}.

(** [addGeocoding]: the rows are geocoded one after the other. *)
Fixpoint addGeocoding (w : World) (data : list CleanedRow) : M (list ClientRecord) :=
  match data with
  | [] => mret []
  | r :: rest =>
      geocoded ← geocodeRow w r;
      others ← addGeocoding w rest;
      mret (geocoded :: others)
  end.

(** [processData(rawData, year = null)] *)
Definition processData (w : World) (rawData : list RawRow) (year : option string)
  : M (list ClientRecord) :=
  addGeocoding w (map (cleanRow year) (List.filter hasName rawData)).

(** ** Loading *)

Inductive Result (A : Type) :=
| Ok (a : A)
| Throw (error : string).
Arguments Ok {A} a.
Arguments Throw {A} error.

#[global] Instance Result_ret : MRet Result := fun A a => Ok a.
#[global] Instance Result_bind : MBind Result := fun A B f r =>
  match r with
  | Ok a => f a
  | Throw e => Throw e
  end.
#[global] Instance Result_fmap : FMap Result := fun A B f r =>
  match r with
  | Ok a => Ok (f a)
  | Throw e => Throw e
  end.

(** [try { body } catch (error) { handler }], for a body that changes
    nothing before it throws. *)
Definition try_catch {A} (body : Result A) (handler : string -> Result A) : Result A :=
  match body with
  | Ok a => Ok a
  | Throw error => handler error
  end.

(** [loadYearData(year)] for a year other than ['all']: the cache test, the
    fetch, the processing and the cache update.  The [catch] logs and
    rethrows. *)
Definition loadOneYear (w : World) (year : string) : M (Result (list ClientRecord)) :=
  d ← get_loader;
  match cache d !! year with
  | Some records => mret (Ok records)
  | None =>
      match fetch w ("data/" +:+ year +:+ ".csv") with
      | NetworkError message => mret (Throw message)
      | Response ok statusText rows =>
          if negb ok
          then mret (Throw ("Failed to load " +:+ year +:+ ".csv: " +:+ statusText))
          else
            processed ← processData w rows (Some year);
            cache_set year processed;;
            mret (Ok processed)
      end
  end.

Record AllData := {
  combined : list ClientRecord;
  byYear : gmap string (list ClientRecord)
}.

(** The year list of [loadAllYearsData]. *)
Definition years : list string := ["2022"; "2023"; "2024"; "2025"].

(** The callback mapped over [years].  [settle year] is what awaiting
    [this.loadYearData(year)] gives.  The callback runs when that promise
    settles, and changes [allData] in place; the report that it returns is
    only logged. *)
Definition year_callback (settle : string -> Result (list ClientRecord))
    (year : string) (allData : AllData) : Result AllData :=
  try_catch
    (yearData ← settle year;
     let dataWithYear := map (with_year year) yearData in
     mret {| combined := combined allData ++ dataWithYear;
             byYear := <[year := yearData]> (byYear allData) |})
    (fun error =>
     mret {| combined := combined allData;
             byYear := <[year := []]> (byYear allData) |}).

(** [Promise.all(loadPromises)]: the callbacks run in the order in which
    their loads settle; a callback that throws rejects the whole. *)
Fixpoint run_callbacks (settle : string -> Result (list ClientRecord))
    (order : list string) (allData : AllData) : Result AllData :=
  match order with
  | [] => mret allData
  | year :: rest =>
      allData' ← year_callback settle year allData;
      run_callbacks settle rest allData'
  end.

(** [loadAllYearsData()], for loads that settle in [order] (a permutation of
    [years]) with the outcomes [settle]. *)
Definition loadAllYearsData (order : list string)
    (settle : string -> Result (list ClientRecord)) : Result AllData :=
  run_callbacks settle order {| combined := []; byYear := ∅ |}.

(** The four loads started by [loadAllYearsData], taken to run to their end
    one after the other in the order in which they settle. *)
Fixpoint settle_years (w : World) (order : list string)
  : M (gmap string (Result (list ClientRecord))) :=
  match order with
  | [] => mret ∅
  | year :: rest =>
      outcome ← loadOneYear w year;
      others ← settle_years w rest;
      mret (<[year := outcome]> others)
  end.

Inductive Loaded :=
| OneYear (records : list ClientRecord)
| AllYears (allData : AllData).

(** [loadYearData(year)].  For ['all'] the outcomes given to
    [loadAllYearsData] are those of the four loads; a year that [order] leaves
    out is a load that has not settled. *)
Definition loadYearData (w : World) (order : list string) (year : string) : M (Result Loaded) :=
  if String.eqb year "all" then
    settled ← settle_years w order;
    mret (AllYears <$>
          loadAllYearsData order (fun y => default (Throw "pending") (settled !! y)))
  else
    outcome ← loadOneYear w year;
    mret (OneYear <$> outcome).

(** [clearCache()] *)
Definition clearCache : M unit := fun s =>
  (tt, {| loader := {| cache := ∅; geocodeCache := ∅ |};
          localStorage := removeItem (localStorage s) "geocodeCache";
          requests := requests s |}).

(** ** Analytics *)

Record RegionStat := { clients : nat; properties : nat }.

(** [analytics.regionStats]: an object whose keys are region names, kept in
    the order in which the keys were added. *)
Abbreviation RegionStats := (list (StateCode * RegionStat)).

Fixpoint stats_get (key : StateCode) (stats : RegionStats) : option RegionStat :=
  match stats with
  | [] => None
  | (k, v) :: rest => if decide (k = key) then Some v else stats_get key rest
  end.

(** [if (!stats[key]) stats[key] = { clients: 0, properties: 0 }] *)
Definition stats_ensure (key : StateCode) (stats : RegionStats) : RegionStats :=
  match stats_get key stats with
  | Some _ => stats
  | None => stats ++ [(key, {| clients := 0; properties := 0 |})]
  end.

(** An update of the entry under [key], in place. *)
Definition stats_update (f : RegionStat -> RegionStat) (key : StateCode)
    (stats : RegionStats) : RegionStats :=
  map (fun e => if decide (fst e = key) then (fst e, f (snd e)) else e) stats.

Definition add_client (v : RegionStat) : RegionStat :=
  {| clients := S (clients v); properties := properties v |}.

Definition add_property (v : RegionStat) : RegionStat :=
  {| clients := clients v; properties := S (properties v) |}.

(** The body of the second [forEach] of [generateAnalytics]. *)
Definition count_regions (stats : RegionStats) (r : ClientRecord) : RegionStats :=
  let stats1 :=
    stats_update add_client (clientState (row r))
      (stats_ensure (clientState (row r)) stats) in
  if bool_decide (propertyState (row r) ≠ Unknown) then
    stats_update add_property (propertyState (row r))
      (stats_ensure (propertyState (row r)) stats1)
  else stats1.

(** The body of the first [forEach] of [generateAnalytics]. *)
Definition count_service (types : gmap string nat) (r : ClientRecord) : gmap string nat :=
  <[serviceType (row r) := default 0 (types !! serviceType (row r)) + 1]> types.

(** The comparator given to [sort]. *)
Definition by_total_desc (a b : StateCode * RegionStat) : Z :=
  (Z.of_nat (clients (snd b) + properties (snd b))
   - Z.of_nat (clients (snd a) + properties (snd a)))%Z.

(** [Array.prototype.sort] is stable: elements that compare equal keep their
    order.  With a comparator that orders the elements consistently the
    result does not depend on the algorithm; it is computed here by
    insertion from the right. *)
Fixpoint sort_insert {A} (cmp : A -> A -> Z) (x : A) (sorted : list A) : list A :=
  match sorted with
  | [] => [x]
  | y :: rest => if (cmp x y <=? 0)%Z then x :: y :: rest else y :: sort_insert cmp x rest
  end.

Definition Array_sort {A} (cmp : A -> A -> Z) (l : list A) : list A :=
  foldr (sort_insert cmp) [] l.

Record Insight := { type : string; title : string; message : string }.

Record Analytics := {
  totalClients : nat;
  totalProperties : nat;
  interstateSales : nat;
  serviceTypes : gmap string nat;
  regionStats : RegionStats;
  topRegion : string;
  insights : list Insight
}.

(** A count as a number. *)
Definition number_of_nat (n : nat) : float := PrimFloat.of_uint63 (Uint63.of_Z (Z.of_nat n)).

(** [part / whole * 100] *)
Definition percentage (part whole : nat) : float :=
  (number_of_nat part / number_of_nat whole * 100)%float.

(** The text that [toFixed(1)] returns: ["NaN"], ["Infinity"] with its sign,
    or a decimal with one digit after the point, given by its sign and its
    number of tenths. *)
Inductive Fixed :=
| FixedNaN
| FixedInfinity (negative : bool)
| FixedDecimal (negative : bool) (tenths : Z).

(** [x.toFixed(1)]: the number of tenths nearest to the exact value of the
    float, the larger one when two are equally near (for a magnitude below
    1e21, which a percentage of two counts has). *)
Definition toFixed1 (x : float) : Fixed :=
  match Prim2SF x with
  | S754_nan => FixedNaN
  | S754_infinity s => FixedInfinity s
  | S754_zero _ => FixedDecimal false 0
  | S754_finite s m e =>
      FixedDecimal s
        (if (0 <=? e)%Z then Z.shiftl (10 * Z.pos m) e
         else Z.shiftr (20 * Z.pos m + Z.shiftl 1 (- e)) (1 - e))
  end.

Definition Fixed_text (f : Fixed) : string :=
  match f with
  | FixedNaN => "NaN"
  | FixedInfinity s => (if s then "-" else "") +:+ "Infinity"
  | FixedDecimal s n =>
      (if s then "-" else "") +:+ pretty (n / 10)%Z +:+ "." +:+ pretty (n mod 10)%Z
  end.

(** [text > bound], for a bound that is not negative: the text is converted
    to the number it spells. *)
Definition Fixed_gt (f : Fixed) (bound : Z) : bool :=
  match f with
  | FixedNaN => false
  | FixedInfinity s => negb s
  | FixedDecimal s n => negb s && (10 * bound <? n)%Z
  end.

Definition interstate_insight (interstateRate : Fixed) : Insight :=
  {| type := "info";
     title := "Strong Interstate Investment";
     message := Fixed_text interstateRate +:+
       "% of clients are investing outside their home state, indicating strong cross-state investment appetite." |}.

Definition flow_insight (nswClients qldProperties : nat) : Insight :=
  {| type := "positive";
     title := "NSW to QLD Investment Flow";
     message := "Strong trend of NSW clients (" +:+ pretty nswClients +:+
       ") investing in QLD properties (" +:+ pretty qldProperties +:+
       "), likely driven by affordability and growth potential." |}.

Definition investment_insight (investmentRate : Fixed) : Insight :=
  {| type := "positive";
     title := "Investment-Focused Client Base";
     message := Fixed_text investmentRate +:+
       "% of clients are investors, showing strong investment property demand." |}.

Definition international_insight (internationalClients : nat) : Insight :=
  {| type := "info";
     title := "International Client Interest";
     message := pretty internationalClients +:+
       " international clients demonstrate global appeal of Australian property market." |}.

Definition generateInsights (data : list ClientRecord) (analytics : Analytics) : list Insight :=
  let interstateRate :=
    toFixed1 (percentage (interstateSales analytics) (totalProperties analytics)) in
  let nswClients := default 0 (clients <$> stats_get NSW (regionStats analytics)) in
  let qldProperties := default 0 (properties <$> stats_get QLD (regionStats analytics)) in
  let investmentCount := default 0 (serviceTypes analytics !! "Investment") in
  let investmentRate := toFixed1 (percentage investmentCount (totalClients analytics)) in
  let internationalClients :=
    length (List.filter
              (fun d => bool_decide (clientState (row d) = Singapore)
                        || bool_decide (clientState (row d) = Dubai)) data) in
  (if Fixed_gt interstateRate 30 then [interstate_insight interstateRate] else [])
  ++ (if (0 <? nswClients)%nat && (0 <? qldProperties)%nat
      then [flow_insight nswClients qldProperties] else [])
  ++ (if Fixed_gt investmentRate 70 then [investment_insight investmentRate] else [])
  ++ (if (0 <? internationalClients)%nat
      then [international_insight internationalClients] else []).

Definition generateAnalytics (data : list ClientRecord) : Analytics :=
  let stats := foldl count_regions [] data in
  let analytics :=
    {| totalClients := length data;
       totalProperties :=
         length (List.filter (fun d => negb (String.eqb (propertyAddress (row d)) "")) data);
       interstateSales := length (List.filter isInterstate data);
       serviceTypes := foldl count_service ∅ data;
       regionStats := stats;
       topRegion :=
         match Array_sort by_total_desc stats with
         | top :: _ => state_name (fst top)
         | [] => "N/A"
         end;
       insights := [] |} in
  {| totalClients := totalClients analytics;
     totalProperties := totalProperties analytics;
     interstateSales := interstateSales analytics;
     serviceTypes := serviceTypes analytics;
     regionStats := regionStats analytics;
     topRegion := topRegion analytics;
     insights := generateInsights data analytics |}.

(** ** Definitions used to state the properties *)

(** The records of a year in a multi-year load: those of its load, or none
    when the load failed. *)
Definition year_records (settle : string -> Result (list ClientRecord)) (y : string)
  : list ClientRecord :=
  match settle y with
  | Ok d => d
  | Throw _ => []
  end.

(** The records of a year, each stamped with the year. *)
Definition stamped (settle : string -> Result (list ClientRecord)) (y : string)
  : list ClientRecord :=
  map (with_year y) (year_records settle y).

(** Every record cached under a year carries that year. *)
Definition cache_stamped (d : DataLoader) : Prop :=
  ∀ y records, cache d !! y = Some records →
    Forall (fun r => year (row r) = Some y) records.

(** ** Sample inputs *)

Definition row_ann : RawRow :=
  {[ "Name" := "Ann"; "Address" := "1 Pitt St, Sydney NSW 2000";
     "Property Purchased" := "9 Ann St, Brisbane QLD 4000";
     "Type of Service" := "Investment" ]}.

Definition row_bob : RawRow :=
  {[ "Name" := "Bob"; "Address" := "2 Lygon St, Carlton VIC 3053";
     "Type of Service" := "Home" ]}.

(** A row whose address column holds a single comma. *)
Definition row_comma : RawRow :=
  {[ "Name" := "Cal"; "Address" := ","; "Property Purchased" := "3 Hay St, Perth WA 6000" ]}.

(** A page without [window.google]; the files of 2022 and 2023 exist, the
    others are answered with a 404. *)
Definition sample_world : World :=
  {| google := None;
     fetch := fun path =>
       if String.eqb path "data/2022.csv" then Response true "OK" [row_ann]
       else if String.eqb path "data/2023.csv" then Response true "OK" [row_bob]
       else Response false "Not Found" [] |}.

Definition empty_storage : Storage := {| items := ∅; accepts_writes := true |}.


(** A loader just constructed over a store. *)
Definition fresh_sys (st : Storage) : Sys :=
  {| loader := new_DataLoader st; localStorage := st; requests := [] |}.

(** The outcome of each year's load in the sample world. *)
Definition sample_settle (y : string) : Result (list ClientRecord) :=
  (loadOneYear sample_world y (fresh_sys empty_storage)).1.

Definition order_2023_first : list string := ["2023"; "2022"; "2024"; "2025"].


(** A page whose geocoder locates every address at the same point. *)
Definition locating_world : World :=
  {| google := Some (fun _ _ => Callback "OK" [{| lat := 1; lng := 2 |}]);
     fetch := fetch sample_world |}.



(** The records of 2022 in the sample world. *)
Definition sample_records_2022 : list ClientRecord := year_records sample_settle "2022".


(** ** Region classification, after the specification *)

(** Two characters that are the same letter, whatever their case. *)
Definition same_letter (a b : ascii) : bool :=
  Ascii.eqb (JS.lower_char a) (JS.lower_char b).

(** [k] is found at the start of [s], case ignored. *)
Fixpoint found_here (k s : list ascii) : bool :=
  match k, s with
  | [], _ => true
  | _ :: _, [] => false
  | a :: k', b :: s' => same_letter a b && found_here k' s'
  end.

(** [k] is found somewhere in [s], case ignored. *)
Fixpoint found_in (k s : list ascii) : bool :=
  found_here k s ||
  match s with
  | [] => false
  | _ :: s' => found_in k s'
  end.



(** ** The order of the regions, after the specification *)

(** The combined count of an entry of [regionStats]. *)
Definition region_total (e : StateCode * RegionStat) : nat :=
  clients (snd e) + properties (snd e).

(** The regions that a record counts towards, in the order in which they are
    counted: its client region, then its property region unless unknown. *)
Definition regions_of (r : ClientRecord) : list StateCode :=
  clientState (row r) ::
  (if bool_decide (propertyState (row r) ≠ Unknown) then [propertyState (row r)] else []).

(** The distinct elements of a sequence, in the order of their first
    occurrence, after those already seen. *)
Definition first_seen (seen : list StateCode) (l : list StateCode) : list StateCode :=
  foldl (fun acc x => if decide (x ∈ acc) then acc else acc ++ [x]) seen l.

(** ** The interstate insight *)


(** The rounded interstate rate of an analytics object. *)
Definition interstateRate (a : Analytics) : Fixed :=
  toFixed1 (percentage (interstateSales a) (totalProperties a)).

(** A character that is neither white space nor a comma. *)
Definition solid (c : ascii) : bool := negb (JS.is_space c || JS.is_comma c).



(** ** The counts of the analytics, stated on the records *)


(** The records whose client is of a region. *)
Definition clients_in (k : StateCode) (data : list ClientRecord) : nat :=
  length (List.filter (fun r => bool_decide (clientState (row r) = k)) data).

(** The records whose property is of a region, the unknown region left out. *)
Definition properties_in (k : StateCode) (data : list ClientRecord) : nat :=
  length (List.filter
            (fun r => bool_decide (propertyState (row r) = k)
                      && bool_decide (propertyState (row r) ≠ Unknown)) data).

(** [stats[key]?.clients || 0] and [stats[key]?.properties || 0] *)
Definition clients_of (k : StateCode) (stats : RegionStats) : nat :=
  default 0 (clients <$> stats_get k stats).

Definition properties_of (k : StateCode) (stats : RegionStats) : nat :=
  default 0 (properties <$> stats_get k stats).

(** The titles of the four insights, in the order in which they are tried. *)
Definition insight_titles : list string :=
  ["Strong Interstate Investment"; "NSW to QLD Investment Flow";
   "Investment-Focused Client Base"; "International Client Interest"].

Definition emitted (t : string) (l : list Insight) : bool :=
  existsb (fun i => String.eqb (title i) t) l.

(** ** Notions used to state the properties of the geocoder *)

(** The geocoding service of the page, if there is one, always runs its
    callback. *)
Definition never_throws (w : World) : Prop :=
  match google w with
  | Some geocode => ∀ log address, geocode log address ≠ Throws
  | None => True
  end.

(** The geocode cache of [s2] holds every entry of that of [s1]. *)
Definition cache_extends (s1 s2 : Sys) : Prop :=
  ∀ k v, geocodeCache (loader s1) !! k = Some v → geocodeCache (loader s2) !! k = Some v.

(** The test of [addGeocoding] before a lookup. *)
Definition client_lookup (r : CleanedRow) : bool :=
  JS.truthy (hasClientLocation r) && negb (String.eqb (clientAddress r) "").

Definition property_lookup (r : CleanedRow) : bool :=
  JS.truthy (hasPropertyLocation r) && negb (String.eqb (propertyAddress r) "").

(** ** Refreshing a year (js/maps.js, [Dashboard.refreshData]) *)

(** [if (cache.has(year)) cache.delete(year)] *)
Definition cache_delete (year : string) : M unit :=
  d ← get_loader;
  set_loader {| cache := delete year (cache d); geocodeCache := geocodeCache d |}.

(** What [refreshData] does to the loader when a year is selected and no load
    is under way: the cache entry of the current year is removed and the year
    is loaded again.  The spinner and the redrawing of the page are left out. *)
Definition refreshData (w : World) (order : list string) (currentYear : string)
  : M (Result Loaded) :=
  cache_delete currentYear;;
  loadYearData w order currentYear.

(** ** Drawing the records (js/maps.js, the second [MapsManager]) *)

(** A marker made by [createMarker] and the map it is on.  The colour given
    to [createMarker] is not used by it; the info window is left out. *)
Record Marker := {
  position : Coords;
  marker_title : string;
  iconUrl : string;
  marker_map : string
}.

(** A line made by [addConnectionLine], with the map it is on. *)
Record Polyline := {
  path : Coords * Coords;
  strokeColor : string;
  strokeWeight : nat;
  line_map : string
}.

(** [this.markers] and [this.polylines]: what is on display. *)
Record MapsManager := {
  markers : list Marker;
  polylines : list Polyline
}.

Definition createMarker (position : Coords) (title type iconUrl map : string) : Marker :=
  {| position := position;
     marker_title := title +:+ " - " +:+ type;
     iconUrl := iconUrl;
     marker_map := map |}.

(** [addConnectionLine], for a map that exists. *)
Definition addConnectionLine (clientCoords propertyCoords : Coords) (client : ClientRecord)
    (map : string) (m : MapsManager) : MapsManager :=
  {| markers := markers m;
     polylines := polylines m ++
       [{| path := (clientCoords, propertyCoords);
           strokeColor := if isInterstate client then "#ef4444" else "#10b981";
           strokeWeight := if isInterstate client then 3 else 2;
           line_map := map |}] |}.

Definition push_marker (mk : Marker) (m : MapsManager) : MapsManager :=
  {| markers := markers m ++ [mk]; polylines := polylines m |}.

(** [addClientToMap(client, index, mapInstance)]; [map] is
    [mapInstance || this.map], absent when there is no map. *)
Definition addClientToMap (client : ClientRecord) (map : option string) (m : MapsManager)
  : MapsManager :=
  match map with
  | None => m
  | Some map =>
      match mapDisplayType (row client) with
      | skip => m
      | display =>
          let m1 :=
            match clientCoords client with
            | Some c =>
                if JS.truthy (hasClientLocation (row client)) then
                  push_marker
                    (createMarker c (name (row client)) "Client"
                       (match display with
                        | client_only => "http://maps.google.com/mapfiles/ms/icons/red-dot.png"
                        | _ => "http://maps.google.com/mapfiles/ms/icons/blue-dot.png"
                        end) map) m
                else m
            | None => m
            end in
          match display, propertyCoords client with
          | both, Some p =>
              if JS.truthy (hasPropertyLocation (row client)) then
                let m2 :=
                  push_marker
                    (createMarker p (name (row client)) "Property"
                       "http://maps.google.com/mapfiles/ms/icons/orange-dot.png" map) m1 in
                match clientCoords client with
                | Some c => addConnectionLine c p client map m2
                | None => m2
                end
              else m1
          | _, _ => m1
          end
      end
  end.

(** [clearMap()] *)
Definition clearMap (m : MapsManager) : MapsManager := {| markers := []; polylines := [] |}.

(** [updateSingleMap(data)], for a page whose single map exists; the map is
    called ["single"]. *)
Definition updateSingleMap (data : list ClientRecord) (m : MapsManager) : MapsManager :=
  foldl (fun m client => addClientToMap client (Some "single") m) (clearMap m) data.

(** The text put under the map of a year by [updateMultipleMaps]. *)
Definition count_text (yearData : list ClientRecord) : string :=
  pretty (length (List.filter (fun d => JS.truthy (hasClientLocation (row d))) yearData))
  +:+ " clients mapped (" +:+ pretty (length yearData) +:+ " total)".

(** The body of the loop of [updateMultipleMaps] for one year: nothing when
    the year has no map ([yearMaps], as [initializeMultipleMaps] left it);
    else [clearYearMap], which clears every map, then the markers of the year
    and the text of its count element, taken to exist. *)
Definition updateYearMap (allData : AllData) (yearMaps : string -> bool)
    (st : MapsManager * list (string * string)) (year : string)
  : MapsManager * list (string * string) :=
  let yearData := default [] (byYear allData !! year) in
  if yearMaps year then
    (foldl (fun m client => addClientToMap client (Some year) m) (clearMap st.1) yearData,
     st.2 ++ [(year, count_text yearData)])
  else st.

(** [updateMultipleMaps(allData)]: the manager afterwards, and the count
    texts written. *)
Definition updateMultipleMaps (allData : AllData) (yearMaps : string -> bool)
    (m : MapsManager) : MapsManager * list (string * string) :=
  foldl (updateYearMap allData yearMaps) (m, []) years.

(** ** Exporting the records ([ChartsManager.exportData]) *)

Definition quote : ascii := "034"%char.
Definition comma : ascii := ","%char.
Definition newline : ascii := "010"%char.

(** A cell between quotes, every quote in it doubled. *)
Definition csv_cell (cell : list ascii) : list ascii :=
  quote :: flat_map (fun c => if Ascii.eqb c quote then [quote; quote] else [c]) cell
  ++ [quote].

(** [parts.join(sep)] *)
Fixpoint join (sep : list ascii) (parts : list (list ascii)) : list ascii :=
  match parts with
  | [] => []
  | [x] => x
  | x :: rest => x ++ sep ++ join sep rest
  end.

(** [csvContent]: the cells of a row joined by commas, the rows by line
    feeds. *)
Definition csvContent (csvData : list (list string)) : string :=
  JS.str (join [newline]
            (map (fun row => join [comma] (map (fun cell => csv_cell (JS.chars cell)) row))
                 csvData)).

Definition export_headers : list string :=
  ["Name"; "Client Address"; "Client State"; "Property Address"; "Property State";
   "Service Type"; "Interstate"; "Date Signed"; "Date of Purchase"; "Email"; "Year"].

(** The cells of a record; [row.year || year] falls back on the year given
    when the record has none, or an empty one. *)
Definition export_row (given_year : string) (r : ClientRecord) : list string :=
  [name (row r); clientAddress (row r); state_name (clientState (row r));
   propertyAddress (row r); state_name (propertyState (row r)); serviceType (row r);
   if isInterstate r then "Yes" else "No";
   dateSigned (row r); datePurchase (row r); email (row r);
   match year (row r) with
   | Some y => if String.eqb y "" then given_year else y
   | None => given_year
   end].

(** [data.combined ? data.combined : data] *)
Definition exported_records (data : Loaded) : list ClientRecord :=
  match data with
  | OneYear records => records
  | AllYears allData => combined allData
  end.

(** The text that [exportData(data, year)] offers for download, and the name
    of the file. *)
Definition exportData (data : Loaded) (given_year : string) : string * string :=
  (if String.eqb given_year "all" then "client-data-all-years.csv"
   else "client-data-" +:+ given_year +:+ ".csv",
   csvContent (export_headers :: map (export_row given_year) (exported_records data))).

(** ** The store and the cache in step *)

(** What a new instance would load from the store is the geocode cache in
    memory. *)
Definition synced (s : Sys) : Prop :=
  loadGeocodeCache (localStorage s) = geocodeCache (loader s).

(** * Properties *)

(** ** The definitions on the examples of the specification *)

Example cleanAddress_example :
  cleanAddress (" Line1" +:+ String "010"%char "Line2, , ") = "Line1, Line2".
Proof. reflexivity. Qed.

Example cleanAddress_commas :
  cleanAddress "," = "" ∧ cleanAddress ",,," = "," ∧ cleanAddress "a, ,  ,b," = "a,  ,b".
Proof. by vm_compute. Qed.

Example extractState_examples :
  extractState "123 X St, Sydney NSW 2000" = NSW
  ∧ extractState "Blah Singapore Rd" = Singapore
  ∧ extractState "no markers here" = Unknown
  ∧ extractState "12 Wattle St, Dubai" = WA.
Proof. by vm_compute. Qed.

Example determineMapDisplayType_table :
  determineMapDisplayType (JS.Bool true) (JS.Str "x") = both
  ∧ determineMapDisplayType (JS.Bool true) (JS.Str "") = client_only
  ∧ determineMapDisplayType JS.Undefined (JS.Str "x") = skip
  ∧ determineMapDisplayType (JS.Str "") JS.Undefined = skip.
Proof. by vm_compute. Qed.

(** A row without a name is dropped; the sentinel address is no address. *)
Example processData_examples :
  (processData sample_world [{[ "Name" := "  "; "Address" := "1 Pitt St NSW" ]}] None
     (fresh_sys empty_storage)).1 = []
  ∧ JS.truthy (hasClientAddress {[ "Name" := "Dee"; "Address" := "No address in contract" ]})
    = false
  ∧ map isInterstate sample_records_2022 = [true].
Proof. by vm_compute. Qed.

(** The percentages are computed on floats: 601 of 2000 is just below 30.05
    and is printed as 30.0. *)
Example toFixed1_examples :
  toFixed1 (percentage 4 10) = FixedDecimal false 400
  ∧ Fixed_text (toFixed1 (percentage 1 3)) = "33.3"
  ∧ toFixed1 (percentage 601 2000) = FixedDecimal false 300
  ∧ toFixed1 (percentage 0 0) = FixedNaN
  ∧ toFixed1 (percentage 1 0) = FixedInfinity false.
Proof. by vm_compute. Qed.

Example topRegion_tie :
  topRegion (generateAnalytics sample_records_2022) = "NSW"
  ∧ map fst (regionStats (generateAnalytics sample_records_2022)) = [NSW; QLD].
Proof. by vm_compute. Qed.


(** ** The multi-year load *)

Lemma year_callback_ok settle y a :
  year_callback settle y a =
    Ok {| combined := combined a ++ stamped settle y;
          byYear := <[y := year_records settle y]> (byYear a) |}.
Proof.
  unfold year_callback, stamped, year_records, try_catch.
  destruct (settle y) as [d|e]; simpl; [reflexivity|].
  by rewrite app_nil_r.
Qed.

Lemma run_callbacks_ok settle order : ∀ a,
  ∃ a', run_callbacks settle order a = Ok a'
    ∧ combined a' = combined a ++ flat_map (stamped settle) order
    ∧ ∀ y, byYear a' !! y =
        if decide (y ∈ order) then Some (year_records settle y) else byYear a !! y.
Proof.
  induction order as [|x order IH]; intros a; simpl.
  - exists a. split; [reflexivity|]. split; [by rewrite app_nil_r|]. intros y.
    destruct (decide (y ∈ [])) as [H|_]; [by apply elem_of_nil in H|done].
  - rewrite year_callback_ok. simpl.
    destruct (IH {| combined := combined a ++ stamped settle x;
                    byYear := <[x := year_records settle x]> (byYear a) |})
      as (a' & Hrun & Hc & Hb).
    exists a'. split; [exact Hrun|]. split.
    + rewrite Hc. simpl. by rewrite app_assoc.
    + intros y. rewrite Hb. simpl.
      destruct (decide (y ∈ order)) as [Hin|Hnin].
      * rewrite decide_True; [done|]. by apply elem_of_cons; right.
      * destruct (decide (y = x)) as [->|Hne].
        -- rewrite decide_True; [|by apply elem_of_cons; left].
           by rewrite lookup_insert_eq.
        -- rewrite decide_False.
           ++ by rewrite lookup_insert_ne.
           ++ intros [?|?]%elem_of_cons; done.
Qed.

Lemma elem_of_order order y : order ≡ₚ years → y ∈ order ↔ y ∈ years.
Proof. intros H. by rewrite H. Qed.

Lemma loadAllYearsData_ok order settle :
  ∃ a, loadAllYearsData order settle = Ok a
    ∧ combined a = flat_map (stamped settle) order
    ∧ ∀ y, byYear a !! y = if decide (y ∈ order) then Some (year_records settle y) else None.
Proof.
  unfold loadAllYearsData.
  destruct (run_callbacks_ok settle order {| combined := []; byYear := ∅ |})
    as (a & Hrun & Hc & Hb).
  exists a. split; [exact Hrun|]. split; [exact Hc|].
  intros y. rewrite Hb. simpl. by rewrite lookup_empty.
Qed.

Lemma flat_map_perm {A B} (f : A → list B) (l1 l2 : list A) :
  l1 ≡ₚ l2 → flat_map f l1 ≡ₚ flat_map f l2.
Proof.
  induction 1 as [|x l1 l2 _ IH|x y l|l1 l2 l3 _ IH1 _ IH2]; simpl.
  - done.
  - by rewrite IH.
  - rewrite !app_assoc. f_equiv. apply Permutation_app_comm.
  - by rewrite IH1.
Qed.




(** C4: in a multi-year load a year whose load fails is mapped to the empty
    sequence, a year whose load succeeds is mapped to its records, [combined]
    holds exactly the stamped records of the years that succeeded, and the
    load returns normally, also when every year fails. *)
Theorem failed_years_are_empty order settle :
  order ≡ₚ years →
  ∃ a, loadAllYearsData order settle = Ok a
    ∧ (∀ y e, y ∈ years → settle y = Throw e → byYear a !! y = Some [])
    ∧ (∀ y d, y ∈ years → settle y = Ok d → byYear a !! y = Some d)
    ∧ combined a ≡ₚ
        flat_map (fun y => match settle y with
                           | Ok d => map (with_year y) d
                           | Throw _ => []
                           end) years
    ∧ ((∀ y, y ∈ years → ∃ e, settle y = Throw e) →
       combined a = [] ∧ ∀ y, y ∈ years → byYear a !! y = Some []).
Proof.
  intros Hperm.
  destruct (loadAllYearsData_ok order settle) as (a & Hrun & Hc & Hb).
  assert (Hkey : ∀ y, y ∈ years → byYear a !! y = Some (year_records settle y)).
  { intros y Hy. rewrite Hb, decide_True; [done|]. by apply (elem_of_order _ _ Hperm). }
  assert (Hcomb : combined a ≡ₚ
            flat_map (fun y => match settle y with
                               | Ok d => map (with_year y) d
                               | Throw _ => []
                               end) years).
  { rewrite Hc, (flat_map_perm _ _ _ Hperm).
    erewrite flat_map_ext; [reflexivity|]. intros y.
    unfold stamped, year_records. by destruct (settle y). }
  exists a. split; [exact Hrun|]. repeat split.
  - intros y e Hy He. rewrite (Hkey y Hy). unfold year_records. by rewrite He.
  - intros y d Hy Hd. rewrite (Hkey y Hy). unfold year_records. by rewrite Hd.
  - exact Hcomb.
  - apply Permutation_nil_r. rewrite Hcomb.
    assert (Hall : ∀ l, (∀ y, y ∈ l → ∃ e, settle y = Throw e) →
              flat_map (fun y => match settle y with
                                 | Ok d => map (with_year y) d
                                 | Throw _ => []
                                 end) l = []).
    { induction l as [|x l IH]; intros Hl; simpl; [done|].
      destruct (Hl x) as [e ->]; [by left|]. simpl. apply IH.
      intros y Hy. apply Hl. by right. }
    by rewrite Hall.
  - intros y Hy. rewrite (Hkey y Hy). unfold year_records.
    by destruct (H y Hy) as [e ->].
Qed.

Lemma failed_years_are_empty_witness :
  order_2023_first ≡ₚ years
  ∧ ∃ a, loadAllYearsData order_2023_first sample_settle = Ok a
    ∧ (∀ y e, y ∈ years → sample_settle y = Throw e → byYear a !! y = Some [])
    ∧ (∀ y d, y ∈ years → sample_settle y = Ok d → byYear a !! y = Some d)
    ∧ combined a ≡ₚ
        flat_map (fun y => match sample_settle y with
                           | Ok d => map (with_year y) d
                           | Throw _ => []
                           end) years
    ∧ ((∀ y, y ∈ years → ∃ e, sample_settle y = Throw e) →
       combined a = [] ∧ ∀ y, y ∈ years → byYear a !! y = Some []).
Proof.
  assert (H : order_2023_first ≡ₚ years) by apply perm_swap.
  split; [exact H|].
  exact (failed_years_are_empty order_2023_first sample_settle H).
Defined.

(** C3, as amended: the combined sequence of a multi-year load is the
    concatenation of the years' records in the order in which the loads
    settle, and every record in it is a record of some year stamped with that
    year. *)
Theorem combined_follows_settling_order order settle :
  order ≡ₚ years →
  ∃ a, loadAllYearsData order settle = Ok a
    ∧ combined a = flat_map (stamped settle) order
    ∧ Forall (fun r => ∃ y r0, y ∈ years ∧ r0 ∈ year_records settle y
                               ∧ r = with_year y r0 ∧ year (row r) = Some y)
             (combined a).
Proof.
  intros Hperm.
  destruct (loadAllYearsData_ok order settle) as (a & Hrun & Hc & _).
  exists a. split; [exact Hrun|]. split; [exact Hc|].
  rewrite Hc. apply Forall_forall. intros r Hr.
  apply list_elem_of_In, in_flat_map in Hr. destruct Hr as (y & Hy & Hr).
  unfold stamped in Hr. apply in_map_iff in Hr. destruct Hr as (r0 & <- & Hr0).
  exists y, r0. repeat split.
  - apply (elem_of_order _ _ Hperm). by apply list_elem_of_In.
  - by apply list_elem_of_In.
Qed.

Lemma combined_follows_settling_order_witness :
  order_2023_first ≡ₚ years
  ∧ ∃ a, loadAllYearsData order_2023_first sample_settle = Ok a
    ∧ combined a = flat_map (stamped sample_settle) order_2023_first
    ∧ Forall (fun r => ∃ y r0, y ∈ years ∧ r0 ∈ year_records sample_settle y
                               ∧ r = with_year y r0 ∧ year (row r) = Some y)
             (combined a).
Proof.
  assert (H : order_2023_first ≡ₚ years) by apply perm_swap.
  split; [exact H|].
  exact (combined_follows_settling_order order_2023_first sample_settle H).
Defined.

(** C3, as stated, fails: when the file of 2023 is loaded before that of
    2022, the record of 2023 comes first in [combined]. *)
Lemma combined_not_in_year_order :
  order_2023_first ≡ₚ years
  ∧ ∃ a, loadAllYearsData order_2023_first sample_settle = Ok a
      ∧ map (fun r => name (row r)) (combined a) = ["Bob"; "Ann"]
      ∧ map (fun r => name (row r)) (flat_map (stamped sample_settle) years) = ["Ann"; "Bob"]
      ∧ combined a ≠ flat_map (stamped sample_settle) years.
Proof.
  split; [apply perm_swap|].
  destruct (loadAllYearsData_ok order_2023_first sample_settle) as (a & Hrun & Hc & _).
  exists a. split; [exact Hrun|]. rewrite Hc.
  split; [by vm_compute|]. split; [by vm_compute|].
  intros H. apply (f_equal (map (fun r => name (row r)))) in H.
  vm_compute in H. discriminate H.
Qed.

(** ** Geocoding the rows *)



Lemma geocodeRow_row w r s : row (geocodeRow w r s).1 = r.
Proof.
  unfold geocodeRow, mbind, M_bind, mret, M_ret.
  repeat match goal with
         | |- context [let '(_, _) := ?m in _] => destruct m
         end.
  reflexivity.
Qed.

Ltac run_binds :=
  repeat match goal with
         | |- context [let '(_, _) := ?m in _] => destruct m
         end.

Lemma eqb_empty_false a : a ≠ "" → String.eqb a "" = false.
Proof. intros H. by apply String.eqb_neq. Qed.




Lemma addGeocoding_rows w data : ∀ s, map row (addGeocoding w data s).1 = data.
Proof.
  induction data as [|r data IH]; intros s; simpl; [done|].
  unfold mbind, M_bind, mret, M_ret.
  pose proof (geocodeRow_row w r s) as Hr. destruct (geocodeRow w r s) as [rec s1].
  pose proof (IH s1) as Hrest. destruct (addGeocoding w data s1) as [recs s2].
  simpl in *. by rewrite Hr, Hrest.
Qed.

Lemma processData_rows w rawData yr s :
  map row (processData w rawData yr s).1 = map (cleanRow yr) (List.filter hasName rawData).
Proof. apply addGeocoding_rows. Qed.

Lemma processData_year w rawData yr s :
  Forall (fun r => year (row r) = yr) (processData w rawData yr s).1.
Proof.
  pose proof (processData_rows w rawData yr s) as H.
  revert H. generalize (List.filter hasName rawData) as l.
  induction (processData w rawData yr s).1 as [|rec recs IH]; intros l H; [constructor|].
  destruct l as [|raw l]; simpl in H; [discriminate|].
  injection H as Hrow Hrest. constructor; [|by eapply IH].
  by rewrite Hrow.
Qed.



(** ** The year of a record *)

Lemma saveGeocodeCache_loader s : loader (saveGeocodeCache s).2 = loader s.
Proof. unfold saveGeocodeCache. by destruct (setItem _ _ _). Qed.

Lemma geocodeAddress_cache w a s :
  cache (loader (geocodeAddress w a s).2) = cache (loader s).
Proof.
  unfold geocodeAddress.
  destruct (String.eqb a ""); [done|].
  destruct (google w) as [geocode|]; [|done].
  unfold mbind, M_bind, mret, M_ret, get_loader. simpl.
  destruct (geocodeCache (loader s) !! JS.toLowerCase a); [done|].
  unfold ask_geocoder.
  destruct (geocode (requests s) a) as [status results|]; [|done].
  unfold geocodeCache_set, mbind, M_bind, get_loader, set_loader. simpl.
  match goal with |- context [saveGeocodeCache ?t] =>
    pose proof (saveGeocodeCache_loader t) as H; destruct (saveGeocodeCache t) end.
  simpl in *. by rewrite H.
Qed.

Lemma geocodeRow_cache w r s :
  cache (loader (geocodeRow w r s).2) = cache (loader s).
Proof.
  unfold geocodeRow, mbind, M_bind, mret, M_ret.
  destruct (JS.truthy (hasClientLocation r) && negb (String.eqb (clientAddress r) ""));
    destruct (JS.truthy (hasPropertyLocation r) && negb (String.eqb (propertyAddress r) ""));
    repeat match goal with
           | |- context [geocodeAddress ?w ?a ?s] =>
               pose proof (geocodeAddress_cache w a s); destruct (geocodeAddress w a s)
           end;
    simpl in *; congruence.
Qed.

Lemma addGeocoding_cache w data : ∀ s,
  cache (loader (addGeocoding w data s).2) = cache (loader s).
Proof.
  induction data as [|r data IH]; intros s; simpl; [done|].
  unfold mbind, M_bind, mret, M_ret.
  pose proof (geocodeRow_cache w r s) as Hr. destruct (geocodeRow w r s) as [rec s1].
  pose proof (IH s1) as Hrest. destruct (addGeocoding w data s1) as [recs s2].
  simpl in *. congruence.
Qed.

Lemma loadOneYear_stamped w y s :
  cache_stamped (loader s) →
  cache_stamped (loader (loadOneYear w y s).2)
  ∧ ∀ records, (loadOneYear w y s).1 = Ok records →
      Forall (fun r => year (row r) = Some y) records.
Proof.
  intros Hs. unfold loadOneYear, mbind, M_bind, mret, M_ret, get_loader.
  destruct (cache (loader s) !! y) as [cached|] eqn:Hy; simpl.
  - split; [done|]. intros records [= <-]. by apply (Hs y).
  - destruct (fetch w _) as [msg|ok statusText rows]; simpl; [by split|].
    destruct ok; simpl; [|by split].
    pose proof (processData_year w rows (Some y) s) as Hyear.
    pose proof (addGeocoding_cache w (map (cleanRow (Some y)) (List.filter hasName rows)) s)
      as Hcache.
    fold (processData w rows (Some y)) in Hcache.
    destruct (processData w rows (Some y) s) as [processed s1]. simpl in *.
    split.
    + intros y' records. simpl.
      destruct (decide (y = y')) as [<-|Hne].
      * rewrite lookup_insert_eq. by intros [= <-].
      * rewrite lookup_insert_ne by done. rewrite Hcache. apply Hs.
    + by intros records [= <-].
Qed.

(** C8, as amended: the records that a single-year load returns carry the
    year that was loaded, because [processData] is given the year; the cache
    keeps that property; a record has no year only when [processData] is
    called without one. *)
Theorem single_year_records_carry_the_year w order y s records :
  cache_stamped (loader s) →
  (loadYearData w order y s).1 = Ok (OneYear records) →
  Forall (fun r => year (row r) = Some y) records
  ∧ cache_stamped (loader (loadOneYear w y s).2)
  ∧ ∀ rawData s', Forall (fun r => year (row r) = None) (processData w rawData None s').1.
Proof.
  intros Hs Hload. split; [|split].
  - unfold loadYearData in Hload.
    destruct (String.eqb y "all").
    + unfold mbind, M_bind, mret, M_ret in Hload.
      destruct (settle_years w order s) as [settled s1]. simpl in Hload.
      by destruct (loadAllYearsData _ _).
    + unfold mbind, M_bind, mret, M_ret in Hload.
      destruct (loadOneYear_stamped w y s Hs) as [_ H].
      destruct (loadOneYear w y s) as [[recs|e] s1]; simpl in *; [|done].
      injection Hload as <-. by apply H.
  - by apply loadOneYear_stamped.
  - intros rawData s'. apply processData_year.
Qed.

Lemma fresh_cache_stamped st : cache_stamped (loader (fresh_sys st)).
Proof. intros y records. simpl. by rewrite lookup_empty. Qed.

Lemma single_year_records_carry_the_year_witness :
  cache_stamped (loader (fresh_sys empty_storage))
  ∧ (loadYearData sample_world years "2022" (fresh_sys empty_storage)).1
    = Ok (OneYear sample_records_2022)
  ∧ (Forall (fun r => year (row r) = Some "2022") sample_records_2022
     ∧ cache_stamped (loader (loadOneYear sample_world "2022" (fresh_sys empty_storage)).2)
     ∧ ∀ rawData s',
         Forall (fun r => year (row r) = None) (processData sample_world rawData None s').1).
Proof.
  split; [apply fresh_cache_stamped|]. split; [by vm_compute|].
  apply (single_year_records_carry_the_year sample_world years "2022"
           (fresh_sys empty_storage) sample_records_2022).
  - apply fresh_cache_stamped.
  - by vm_compute.
Defined.

(** C8, as stated, fails: the record returned by a single-year load of 2022
    carries the year "2022". *)
Lemma single_year_record_has_a_year :
  ∃ r, (loadYearData sample_world years "2022" (fresh_sys empty_storage)).1 = Ok (OneYear [r])
    ∧ name (row r) = "Ann"
    ∧ year (row r) = Some "2022".
Proof. eexists. split; [by vm_compute|]. by vm_compute. Qed.

(** ** The geocoder and its cache *)




(** ** The persisted cache *)

Lemma entries_roundtrip entries : entries_of_json (json_of_entries entries) = Some entries.
Proof.
  unfold json_of_entries, entries_of_json.
  induction entries as [|[k v] entries IH]; [done|].
  cbn [map mapM fst snd]. rewrite IH.
  by destruct v as [[a b]|].
Qed.

Lemma Map_of_entries_lookup (entries : list (string * option Coords)) :
  ∀ (m : gmap string (option Coords)) (k : string),
  NoDup entries.*1 →
  foldl (fun m e => <[fst e := snd e]> m) m entries !! k =
    match (list_to_map entries : gmap string (option Coords)) !! k with
    | Some v => Some v
    | None => m !! k
    end.
Proof.
  induction entries as [|[k0 v0] entries IH]; intros m k Hnd; simpl.
  - by rewrite lookup_empty.
  - apply NoDup_cons in Hnd as [Hk0 Hnd]. rewrite IH by done.
    destruct (decide (k = k0)) as [->|Hne].
    + rewrite (not_elem_of_list_to_map_1 _ _ Hk0). by rewrite !lookup_insert_eq.
    + by rewrite !lookup_insert_ne.
Qed.

Lemma Map_of_entries_to_list (m : gmap string (option Coords)) :
  Map_of_entries (map_to_list m) = m.
Proof.
  apply map_eq. intros k. unfold Map_of_entries.
  rewrite Map_of_entries_lookup by apply NoDup_fst_map_to_list.
  rewrite list_to_map_to_list, lookup_empty. by destruct (m !! k).
Qed.




(** ** Region classification *)





Section folded.
Variable fold_char : ascii → ascii.
Hypothesis eqb_fold :
  ∀ a b, fold_char a = a → Ascii.eqb a (fold_char b) = same_letter a b.


End folded.

Lemma chars_str l : JS.chars (JS.str l) = l.
Proof. apply list_ascii_of_string_of_list_ascii. Qed.



(** What [found_in] decides: some stretch of the text spells the key, letter
    by letter, case ignored. *)
Lemma found_in_spec k s :
  found_in k s = true ↔
  ∃ before stretch after,
    s = before ++ stretch ++ after
    ∧ Forall2 (fun a b => JS.lower_char a = JS.lower_char b) k stretch.
Proof.
  assert (Hhere : ∀ k s, found_here k s = true ↔
            ∃ stretch after, s = stretch ++ after
              ∧ Forall2 (fun a b => JS.lower_char a = JS.lower_char b) k stretch).
  { clear. induction k as [|a k IH]; intros s.
    - split; [|done]. intros _. exists [], s. by split; [|constructor].
    - destruct s as [|b s]; simpl.
      + split; [done|]. intros (st & af & Hs & Hf).
        inversion Hf; subst. discriminate.
      + rewrite andb_true_iff, IH. unfold same_letter. split.
        * intros [Hab%Ascii.eqb_eq (st & af & -> & Hf)].
          exists (b :: st), af. split; [done|]. by constructor.
        * intros (st & af & Hs & Hf). inversion Hf as [|? b' ? st' Hab Hf']; subst.
          injection Hs as <- ->. split; [by apply Ascii.eqb_eq|]. by exists st', af. }
  induction s as [|b s IH]; simpl.
  - rewrite orb_false_r, Hhere. split.
    + intros (st & af & Hs & Hf). by exists [], st, af.
    + intros (be & st & af & Hs & Hf).
      destruct be; [|discriminate]. by exists st, af.
  - rewrite orb_true_iff, Hhere, IH. split.
    + intros [(st & af & Hs & Hf)|(be & st & af & Hs & Hf)].
      * by exists [], st, af.
      * exists (b :: be), st, af. split; [|done]. by rewrite Hs.
    + intros (be & st & af & Hs & Hf). destruct be as [|b' be].
      * left. by exists st, af.
      * right. injection Hs as -> ->. by exists be, st, af.
Qed.


(** ** The region statistics and the top region *)

Lemma stats_get_None key (stats : RegionStats) :
  stats_get key stats = None ↔ key ∉ map fst stats.
Proof.
  induction stats as [|[k v] stats IH]; simpl.
  - split; [intros _|done]. apply not_elem_of_nil.
  - destruct (decide (k = key)) as [->|Hne].
    + split; [done|]. intros H. exfalso. apply H. by left.
    + rewrite IH, not_elem_of_cons. split; [by intros H; split|by intros [_ H]].
Qed.

Lemma stats_ensure_keys key (stats : RegionStats) :
  map fst (stats_ensure key stats) =
    if decide (key ∈ map fst stats) then map fst stats else map fst stats ++ [key].
Proof.
  unfold stats_ensure. destruct (stats_get key stats) as [v|] eqn:Hget.
  - rewrite decide_True; [done|].
    destruct (decide (key ∈ map fst stats)) as [H|H]; [done|].
    apply stats_get_None in H. congruence.
  - rewrite decide_False by by apply stats_get_None.
    by rewrite map_app.
Qed.

Lemma stats_update_keys f key (stats : RegionStats) :
  map fst (stats_update f key stats) = map fst stats.
Proof.
  unfold stats_update. rewrite map_map. apply map_ext.
  intros [k v]. simpl. by destruct (decide (k = key)).
Qed.

Lemma count_regions_keys (stats : RegionStats) r :
  map fst (count_regions stats r) = first_seen (map fst stats) (regions_of r).
Proof.
  unfold count_regions, regions_of, first_seen.
  destruct (bool_decide (propertyState (row r) ≠ Unknown)); simpl.
  - by rewrite stats_update_keys, stats_ensure_keys, stats_update_keys, stats_ensure_keys.
  - by rewrite stats_update_keys, stats_ensure_keys.
Qed.

Lemma regionStats_keys data : ∀ stats : RegionStats,
  map fst (foldl count_regions stats data) = first_seen (map fst stats) (flat_map regions_of data).
Proof.
  induction data as [|r data IH]; intros stats; simpl; [done|].
  rewrite IH, count_regions_keys. unfold first_seen. by rewrite foldl_app.
Qed.

Lemma first_seen_NoDup l : ∀ seen, NoDup seen → NoDup (first_seen seen l).
Proof.
  induction l as [|x l IH]; intros seen Hs; simpl; [done|].
  apply IH. destruct (decide (x ∈ seen)) as [Hin|Hnin]; [done|].
  apply NoDup_app. split; [done|]. split.
  - intros y Hy Hyx. apply list_elem_of_singleton in Hyx. by subst.
  - apply NoDup_singleton.
Qed.

Lemma sort_insert_head {A} (cmp : A → A → Z) x sorted :
  head (sort_insert cmp x sorted) =
    match head sorted with
    | Some y => if (cmp x y <=? 0)%Z then Some x else Some y
    | None => Some x
    end.
Proof. destruct sorted as [|y rest]; simpl; [done|]. by destruct (cmp x y <=? 0)%Z. Qed.

(** The head of the sorted entries is the first entry of greatest total. *)
Lemma sorted_head_is_first_maximum (stats : RegionStats) e :
  head (Array_sort by_total_desc stats) = Some e →
  ∃ i, stats !! i = Some e
    ∧ (∀ j e', stats !! j = Some e' → (region_total e' ≤ region_total e)%nat)
    ∧ (∀ j e', (j < i)%nat → stats !! j = Some e' → (region_total e' < region_total e)%nat).
Proof.
  revert e. induction stats as [|x stats IH]; intros e; [done|].
  cbn [Array_sort foldr]. rewrite sort_insert_head.
  fold (Array_sort by_total_desc stats).
  destruct (head (Array_sort by_total_desc stats)) as [y|] eqn:Hy.
  - destruct (IH y eq_refl) as (i & Hi & Hmax & Hfirst).
    unfold by_total_desc. fold (region_total x). fold (region_total y).
    destruct (Z.leb_spec (Z.of_nat (region_total y) - Z.of_nat (region_total x)) 0)
      as [Hle|Hgt]; intros [= <-].
    + exists 0. split; [done|]. split; [|intros; lia].
      intros [|j] e' He'; simpl in He'.
      * injection He' as <-. lia.
      * specialize (Hmax j e' He'). lia.
    + exists (S i). split; [done|]. split.
      * intros [|j] e' He'; simpl in He'.
        -- injection He' as <-. lia.
        -- by apply (Hmax j).
      * intros [|j] e' Hj He'; simpl in He'.
        -- injection He' as <-. lia.
        -- apply (Hfirst j); [lia|done].
  - intros [= <-]. exists 0. split; [done|].
    destruct stats as [|z stats]; [|simpl in Hy; by rewrite sort_insert_head in Hy;
                                     destruct (head _); [destruct (_ <=? _)%Z|]].
    split; [|intros; lia]. intros [|j] e' He'; simpl in He'; [|done].
    injection He' as <-. lia.
Qed.

Lemma sorted_nil {A} (cmp : A → A → Z) l : Array_sort cmp l = [] → l = [].
Proof.
  destruct l as [|x l]; [done|]. simpl.
  destruct (Array_sort cmp l) as [|y rest]; simpl; [done|].
  by destruct (cmp x y <=? 0)%Z.
Qed.

(** C6: [topRegion] names the entry of [regionStats] whose clients plus
    properties is greatest, the earliest such entry when several are equal,
    and is "N/A" when [regionStats] is empty; the entries of [regionStats]
    stand in the order in which their regions are first met in the records,
    each region once. *)
Theorem topRegion_is_first_maximum data :
  let a := generateAnalytics data in
  match regionStats a with
  | [] => topRegion a = "N/A"
  | _ :: _ =>
      ∃ i e, regionStats a !! i = Some e
        ∧ topRegion a = state_name (fst e)
        ∧ (∀ j e', regionStats a !! j = Some e' → (region_total e' ≤ region_total e)%nat)
        ∧ (∀ j e', (j < i)%nat → regionStats a !! j = Some e' →
                   (region_total e' < region_total e)%nat)
  end
  ∧ map fst (regionStats a) = first_seen [] (flat_map regions_of data)
  ∧ NoDup (map fst (regionStats a)).
Proof.
  cbn [generateAnalytics regionStats topRegion]. split; [|split].
  - destruct (foldl count_regions [] data) as [|x stats] eqn:Hstats; [done|].
    destruct (Array_sort by_total_desc (x :: stats)) as [|top rest] eqn:Hsort.
    + by apply sorted_nil in Hsort.
    + destruct (sorted_head_is_first_maximum (x :: stats) top) as (i & Hi & Hmax & Hfirst).
      { by rewrite Hsort. }
      by exists i, top.
  - apply (regionStats_keys data []).
  - rewrite (regionStats_keys data []). apply first_seen_NoDup. constructor.
Qed.

(** ** Cleaned addresses keep their solid characters *)

Lemma skip_spaces_solid l : List.filter solid (JS.skip_spaces l) = List.filter solid l.
Proof.
  induction l as [|c l IH]; simpl; [done|].
  destruct (JS.is_space c) eqn:Hc; [|done].
  unfold solid at 2. by rewrite Hc.
Qed.

Lemma filter_rev_solid l : List.filter solid (rev l) = rev (List.filter solid l).
Proof.
  induction l as [|c l IH]; simpl; [done|].
  rewrite List.filter_app, IH. simpl.
  destruct (solid c); simpl; [done|]. by rewrite app_nil_r.
Qed.

Lemma trim_chars_solid l : List.filter solid (JS.trim_chars l) = List.filter solid l.
Proof.
  unfold JS.trim_chars.
  by rewrite filter_rev_solid, skip_spaces_solid, filter_rev_solid, rev_involutive,
       skip_spaces_solid.
Qed.

Lemma newline_not_solid c : JS.is_newline c = true → solid c = false.
Proof.
  unfold JS.is_newline, solid, JS.is_space. intros H%Nat.eqb_eq. by rewrite H.
Qed.

Lemma replace_newlines_solid l :
  List.filter solid (JS.replace_newlines l) = List.filter solid l.
Proof.
  unfold JS.replace_newlines.
  induction l as [|c l IH]; [done|].
  cbn [flat_map]. rewrite List.filter_app, IH.
  destruct (JS.is_newline c) eqn:Hc.
  - cbn [List.filter]. by rewrite (newline_not_solid c Hc).
  - cbn [List.filter]. by destruct (solid c).
Qed.

Lemma comma_not_solid c : JS.is_comma c = true → solid c = false.
Proof. unfold solid. intros ->. by rewrite orb_true_r. Qed.

Lemma skip_spaces_length l : length (JS.skip_spaces l) ≤ length l.
Proof.
  induction l as [|c l IH]; simpl; [done|].
  destruct (JS.is_space c); simpl; lia.
Qed.

Lemma collapse_commas_solid n : ∀ l,
  length l ≤ n → List.filter solid (JS.collapse_commas n l) = List.filter solid l.
Proof.
  induction n as [|n IH]; intros l Hl.
  - destruct l; [done|simpl in Hl; lia].
  - destruct l as [|c r]; [done|]. simpl in Hl. cbn [JS.collapse_commas].
    destruct (JS.is_comma c) eqn:Hc.
    + pose proof (skip_spaces_length r) as Hlen.
      pose proof (skip_spaces_solid r) as Hsolid.
      destruct (JS.skip_spaces r) as [|d r'].
      * simpl. rewrite IH by lia. done.
      * destruct (JS.is_comma d) eqn:Hd.
        -- simpl in *. rewrite (comma_not_solid c Hc), IH by lia.
           rewrite <- Hsolid. by rewrite (comma_not_solid d Hd).
        -- simpl. rewrite IH by lia. done.
    + simpl. rewrite IH by lia. done.
Qed.

Lemma spaces_not_solid l : forallb JS.is_space l = true → List.filter solid l = [].
Proof.
  induction l as [|c l IH]; simpl; [done|].
  intros [Hc Hl]%andb_true_iff. unfold solid at 1. rewrite Hc. simpl. by apply IH.
Qed.

Lemma strip_trailing_comma_solid l :
  List.filter solid (JS.strip_trailing_comma l) = List.filter solid l.
Proof.
  induction l as [|c l IH]; simpl; [done|].
  destruct (JS.is_comma c && forallb JS.is_space l) eqn:Hc.
  - apply andb_true_iff in Hc as [Hc Hl].
    by rewrite (comma_not_solid c Hc), (spaces_not_solid l Hl).
  - simpl. by rewrite IH.
Qed.

Lemma cleanAddress_solid address :
  List.filter solid (JS.chars (cleanAddress address)) = List.filter solid (JS.chars address).
Proof.
  unfold cleanAddress. destruct (String.eqb_spec address "") as [->|_]; [done|].
  rewrite chars_str, strip_trailing_comma_solid, collapse_commas_solid by done.
  by rewrite replace_newlines_solid, trim_chars_solid.
Qed.






(** ** The interstate insight *)








(** * Further properties of the code *)

(** ** What the analytics count *)

Lemma filter_length_pos {A} (f : A → bool) (l : list A) :
  length (List.filter f l) ≠ 0 ↔ ∃ x, x ∈ l ∧ f x = true.
Proof.
  induction l as [|a l IH]; simpl.
  - split; [done|]. intros (x & Hx & _). by apply elem_of_nil in Hx.
  - destruct (f a) eqn:Ha; simpl.
    + split; [|done]. intros _. exists a. split; [by left|done].
    + rewrite IH. split.
      * intros (x & Hx & Hf). exists x. split; [by right|done].
      * intros (x & Hx & Hf). apply elem_of_cons in Hx as [->|Hx]; [congruence|].
        by exists x.
Qed.



Lemma stats_get_update f key (stats : RegionStats) k :
  stats_get k (stats_update f key stats) =
    if decide (k = key) then f <$> stats_get k stats else stats_get k stats.
Proof.
  unfold stats_update.
  induction stats as [|[k0 v0] stats IH]; simpl; [by destruct (decide (k = key))|].
  destruct (decide (k0 = key)) as [->|Hne]; simpl.
  - destruct (decide (key = k)) as [->|Hk].
    + by rewrite decide_True.
    + rewrite IH. by destruct (decide (k = key)).
  - destruct (decide (k0 = k)) as [->|Hk].
    + by rewrite decide_False.
    + by rewrite IH.
Qed.

Lemma stats_get_ensure key (stats : RegionStats) k :
  stats_get k (stats_ensure key stats) =
    match stats_get k stats with
    | Some v => Some v
    | None => if decide (k = key) then Some {| clients := 0; properties := 0 |} else None
    end.
Proof.
  unfold stats_ensure.
  destruct (stats_get key stats) as [v|] eqn:Hkey.
  - destruct (stats_get k stats) eqn:Hk; [done|].
    destruct (decide (k = key)) as [->|]; [congruence|done].
  - clear Hkey. induction stats as [|[k0 v0] stats IH]; simpl.
    + destruct (decide (key = k)) as [->|Hne].
      * by rewrite decide_True.
      * by rewrite decide_False.
    + by destruct (decide (k0 = k)).
Qed.

Lemma count_regions_get (stats : RegionStats) r k :
  stats_get k (count_regions stats r) =
    let c := if decide (clientState (row r) = k) then 1 else 0 in
    let p := if decide (propertyState (row r) = k ∧ propertyState (row r) ≠ Unknown)
             then 1 else 0 in
    match stats_get k stats with
    | Some v => Some {| clients := clients v + c; properties := properties v + p |}
    | None => if c + p is 0 then None else Some {| clients := c; properties := p |}
    end.
Proof.
  unfold count_regions.
  destruct (bool_decide (propertyState (row r) ≠ Unknown)) eqn:Hp.
  - apply bool_decide_eq_true in Hp.
    rewrite stats_get_update, stats_get_ensure, stats_get_update, stats_get_ensure.
    destruct (stats_get k stats) as [[c0 p0]|]; cbn;
      repeat case_decide; try (exfalso; intuition congruence);
      try (exfalso; match goal with
                    | H : ¬ (_ ∧ _) |- _ => apply H; split; congruence
                    end);
      cbn; unfold add_client, add_property; cbn; try done; f_equal; f_equal; lia.
  - apply bool_decide_eq_false in Hp.
    rewrite stats_get_update, stats_get_ensure.
    destruct (stats_get k stats) as [[c0 p0]|]; cbn;
      repeat case_decide; try (exfalso; intuition congruence);
      try (exfalso; match goal with
                    | H : ¬ (_ ∧ _) |- _ => apply H; split; congruence
                    end);
      cbn; unfold add_client; cbn; try done; f_equal; f_equal; lia.
Qed.

Lemma regionStats_get data : ∀ (stats : RegionStats) k,
  stats_get k (foldl count_regions stats data) =
    match stats_get k stats with
    | Some v => Some {| clients := clients v + clients_in k data;
                        properties := properties v + properties_in k data |}
    | None => if clients_in k data + properties_in k data is 0 then None
              else Some {| clients := clients_in k data;
                           properties := properties_in k data |}
    end.
Proof.
  unfold clients_in, properties_in.
  induction data as [|r data IH]; intros stats k.
  - simpl. destruct (stats_get k stats) as [[c p]|]; [|done].
    simpl. f_equal. f_equal; lia.
  - cbn [foldl List.filter]. rewrite IH, count_regions_get. cbv zeta.
    destruct (decide (clientState (row r) = k)) as [Hc|Hc];
      [rewrite (bool_decide_eq_true_2 _ Hc)|rewrite (bool_decide_eq_false_2 _ Hc)];
      (destruct (decide (propertyState (row r) = k ∧ propertyState (row r) ≠ Unknown))
         as [[Hp Hu]|Hp];
       [rewrite (bool_decide_eq_true_2 _ Hp), (bool_decide_eq_true_2 _ Hu)|
        destruct (decide (propertyState (row r) = k)) as [Hp'|Hp'];
        [rewrite (bool_decide_eq_true_2 _ Hp'), bool_decide_eq_false_2 by tauto|
         rewrite (bool_decide_eq_false_2 _ Hp')]]);
      destruct (stats_get k stats) as [[c p]|]; cbn;
      try (f_equal; f_equal; lia);
      repeat match goal with
             | |- context [length ?l] => destruct (length l)
             end; cbn; try done; f_equal; f_equal; lia.
Qed.

(** X2: the entry of a region in [regionStats] holds the number of records
    whose client is of the region and the number of records whose property is
    of the region (no property is counted for the unknown region); a region
    has an entry exactly when one of the two numbers is not zero. *)
Theorem regionStats_counts data k :
  stats_get k (regionStats (generateAnalytics data)) =
    if clients_in k data + properties_in k data is 0 then None
    else Some {| clients := clients_in k data; properties := properties_in k data |}.
Proof. cbn [generateAnalytics regionStats]. by rewrite regionStats_get. Qed.

Lemma filter_length_zero {A} (f : A → bool) (l : list A) :
  (0 <? length (List.filter f l)) = true ↔ ∃ x, x ∈ l ∧ f x = true.
Proof. rewrite Nat.ltb_lt, <- filter_length_pos. lia. Qed.

Lemma emitted_rules data a :
  emitted "NSW to QLD Investment Flow" (generateInsights data a)
  = (0 <? clients_of NSW (regionStats a)) && (0 <? properties_of QLD (regionStats a))
  ∧ emitted "International Client Interest" (generateInsights data a)
    = (0 <? length (List.filter
                      (fun d => bool_decide (clientState (row d) = Singapore)
                                || bool_decide (clientState (row d) = Dubai)) data))
  ∧ sublist (map title (generateInsights data a)) insight_titles.
Proof.
  unfold emitted, generateInsights, clients_of, properties_of, insight_titles.
  rewrite !existsb_app, !map_app.
  repeat match goal with
         | |- context [if ?c then [_] else []] => destruct c
         end; cbn; (split; [reflexivity|split; [reflexivity|]]);
    repeat first [apply sublist_nil | apply sublist_skip | apply sublist_cons].
Qed.

(** X3: the insights of a record set come in the fixed order of the four
    rules, each at most once.  The NSW to QLD insight is among them exactly
    when some record has a client in NSW and some record has a property in
    QLD; the international insight exactly when some record has a client in
    Singapore or in Dubai. *)
Theorem insights_of_the_records data :
  let l := insights (generateAnalytics data) in
  sublist (map title l) insight_titles
  ∧ (emitted "NSW to QLD Investment Flow" l = true
     ↔ (∃ r, r ∈ data ∧ clientState (row r) = NSW)
       ∧ (∃ r, r ∈ data ∧ propertyState (row r) = QLD))
  ∧ (emitted "International Client Interest" l = true
     ↔ ∃ r, r ∈ data ∧ (clientState (row r) = Singapore ∨ clientState (row r) = Dubai)).
Proof.
  cbn [generateAnalytics insights].
  match goal with |- context [generateInsights data ?a] =>
    destruct (emitted_rules data a) as (Hflow & Hint & Hsub) end.
  split; [exact Hsub|]. rewrite Hflow, Hint. cbn [regionStats].
  unfold clients_of, properties_of. rewrite !regionStats_get. cbn [stats_get].
  split.
  - rewrite andb_true_iff.
    assert (Hc : (0 <? default 0
                    (clients <$>
                       (if clients_in NSW data + properties_in NSW data is 0 then None
                        else Some {| clients := clients_in NSW data;
                                     properties := properties_in NSW data |}))) = true
                 ↔ ∃ r, r ∈ data ∧ clientState (row r) = NSW).
    { transitivity ((0 <? clients_in NSW data) = true).
      - destruct (clients_in NSW data); destruct (properties_in NSW data); by cbn.
      - unfold clients_in. rewrite filter_length_zero.
        split; intros (r & Hr & Hk); exists r; (split; [done|]).
        + by apply bool_decide_eq_true in Hk.
        + by apply bool_decide_eq_true. }
    assert (Hp : (0 <? default 0
                    (properties <$>
                       (if clients_in QLD data + properties_in QLD data is 0 then None
                        else Some {| clients := clients_in QLD data;
                                     properties := properties_in QLD data |}))) = true
                 ↔ ∃ r, r ∈ data ∧ propertyState (row r) = QLD).
    { transitivity ((0 <? properties_in QLD data) = true).
      - destruct (clients_in QLD data); destruct (properties_in QLD data); by cbn.
      - unfold properties_in. rewrite filter_length_zero.
        split; intros (r & Hr & Hk); exists r; (split; [done|]).
        + apply andb_true_iff in Hk as [Hk _]. by apply bool_decide_eq_true in Hk.
        + apply andb_true_iff. split; apply bool_decide_eq_true; congruence. }
    by rewrite Hc, Hp.
  - rewrite filter_length_zero.
    split; intros (r & Hr & Hk); exists r; (split; [done|]).
    + apply orb_true_iff in Hk as [Hk|Hk]; apply bool_decide_eq_true in Hk; tauto.
    + apply orb_true_iff. destruct Hk as [Hk|Hk]; [left|right]; by apply bool_decide_eq_true.
Qed.

(** ** What the processed records are *)

Lemma addGeocoding_each w data : ∀ s,
  Forall (fun rec => ∃ r s', r ∈ data ∧ rec = (geocodeRow w r s').1)
         (addGeocoding w data s).1.
Proof.
  induction data as [|r data IH]; intros s; simpl; [constructor|].
  unfold mbind, M_bind, mret, M_ret.
  destruct (geocodeRow w r s) as [rec s1] eqn:Hr.
  pose proof (IH s1) as Hrest. destruct (addGeocoding w data s1) as [recs s2].
  simpl in *. constructor.
  - exists r, s. split; [by left|]. by rewrite Hr.
  - eapply Forall_impl; [exact Hrest|]. intros rec' (r' & s' & Hin & ->).
    exists r', s'. split; [by right|done].
Qed.

Lemma processData_each w rawData yr s :
  Forall (fun rec => ∃ raw s', raw ∈ rawData ∧ hasName raw = true
                               ∧ rec = (geocodeRow w (cleanRow yr raw) s').1)
         (processData w rawData yr s).1.
Proof.
  unfold processData. eapply Forall_impl; [apply addGeocoding_each|].
  intros rec (r & s' & Hin & ->).
  apply list_elem_of_In, in_map_iff in Hin as (raw & <- & Hraw).
  apply filter_In in Hraw as [Hraw Hname].
  exists raw, s'. split; [by apply list_elem_of_In|done].
Qed.

Lemma hasName_trim raw : hasName raw = true → JS.trim (text raw "Name") ≠ "".
Proof.
  unfold hasName, field, text, JS.and.
  destruct (raw !! "Name") as [t|]; simpl; [|done].
  destruct (String.eqb_spec t "") as [->|_]; simpl; [done|].
  destruct (String.eqb_spec (JS.trim t) ""); simpl; done.
Qed.

(** X4: [processData] keeps the rows that have a name, in the order of the
    file, and drops the others; the name of a record is the trimmed name of
    its row and is never empty. *)
Theorem processData_keeps_the_named_rows w rawData yr s :
  map (fun r => name (row r)) (processData w rawData yr s).1
  = map (fun raw => JS.trim (text raw "Name")) (List.filter hasName rawData)
  ∧ Forall (fun r => name (row r) ≠ "") (processData w rawData yr s).1
  ∧ length (processData w rawData yr s).1 ≤ length rawData.
Proof.
  pose proof (processData_rows w rawData yr s) as Hrows.
  assert (Hname : ∀ raw, hasName raw = true →
            name (cleanRow yr raw) = JS.trim (text raw "Name")).
  { intros raw Hraw. cbn [cleanRow name]. unfold trimmed_or.
    by rewrite (eqb_empty_false _ (hasName_trim raw Hraw)). }
  split; [|split].
  - change (fun r => name (row r)) with (name ∘ row).
    rewrite <- (map_map row name), Hrows, map_map.
    apply map_ext_in. intros raw [_ Hraw]%filter_In. by apply Hname.
  - eapply Forall_impl; [apply processData_each|].
    intros rec (raw & s' & _ & Hraw & ->).
    rewrite geocodeRow_row, (Hname raw Hraw). by apply hasName_trim.
  - rewrite <- (length_map row), Hrows, length_map. apply List.filter_length_le.
Qed.

Lemma geocodeRow_isInterstate_eq w r s :
  isInterstate (geocodeRow w r s).1 =
    bool_decide (clientState r ≠ Unknown) && bool_decide (propertyState r ≠ Unknown)
    && bool_decide (clientState r ≠ propertyState r).
Proof.
  unfold geocodeRow, mbind, M_bind, mret, M_ret.
  destruct (JS.truthy (hasClientLocation r) && negb (String.eqb (clientAddress r) ""));
    destruct (JS.truthy (hasPropertyLocation r) && negb (String.eqb (propertyAddress r) ""));
    repeat match goal with
           | |- context [geocodeAddress ?w ?a ?s] => destruct (geocodeAddress w a s)
           end; reflexivity.
Qed.

(** X5: in every processed record, the interstate flag holds exactly when
    both regions are known and differ; a location flag that does not hold
    comes with an empty address and the unknown region; an interstate record
    has the display type [both], and the display type is [skip] exactly when
    there is no client location. *)
Theorem processed_record_invariants w rawData yr s :
  Forall
    (fun r =>
       (isInterstate r = true ↔
          clientState (row r) ≠ Unknown ∧ propertyState (row r) ≠ Unknown
          ∧ clientState (row r) ≠ propertyState (row r))
       ∧ (JS.truthy (hasClientLocation (row r)) = false →
          clientAddress (row r) = "" ∧ clientState (row r) = Unknown)
       ∧ (JS.truthy (hasPropertyLocation (row r)) = false →
          propertyAddress (row r) = "" ∧ propertyState (row r) = Unknown)
       ∧ (isInterstate r = true → mapDisplayType (row r) = both)
       ∧ (mapDisplayType (row r) = skip ↔ JS.truthy (hasClientLocation (row r)) = false))
    (processData w rawData yr s).1.
Proof.
  eapply Forall_impl; [apply processData_each|].
  intros rec (raw & s' & _ & _ & ->).
  rewrite geocodeRow_isInterstate_eq, geocodeRow_row.
  rewrite !andb_true_iff, !bool_decide_eq_true.
  cbn [cleanRow clientState propertyState clientAddress propertyAddress
       hasClientLocation hasPropertyLocation mapDisplayType].
  unfold determineMapDisplayType.
  destruct (JS.truthy (hasClientAddress raw)); destruct (JS.truthy (hasPropertyAddress raw));
    cbn; repeat split; try done; try tauto; intros; try tauto; try done.
Qed.

(** ** Geocoding without the service, and a second time *)

Lemma fallback_total st : is_Some (fallbackCoords !! state_name st).
Proof. destruct st; eexists; by vm_compute. Qed.

Lemma or_fallback_state found st :
  JS.or found (JS.or (fallbackCoords !! state_name st) (fallbackCoords !! "Unknown"))
  = match found with
    | Some c => Some c
    | None => fallbackCoords !! state_name st
    end.
Proof.
  destruct found; [done|]. simpl.
  by destruct (fallback_total st) as [c ->].
Qed.

Lemma geocodeAddress_no_google w a s : google w = None → geocodeAddress w a s = (None, s).
Proof.
  intros Hg. unfold geocodeAddress. rewrite Hg. by destruct (String.eqb a "").
Qed.

Lemma geocodeRow_lookups w r s :
  geocodeRow w r s =
    let c := if client_lookup r then geocodeAddress w (clientAddress r) s else (None, s) in
    let p := if property_lookup r then geocodeAddress w (propertyAddress r) c.2
             else (None, c.2) in
    ({| row := r;
        clientCoords :=
          if client_lookup r
          then match c.1 with
               | Some f => Some f
               | None => fallbackCoords !! state_name (clientState r)
               end
          else None;
        propertyCoords :=
          if property_lookup r
          then match p.1 with
               | Some f => Some f
               | None => fallbackCoords !! state_name (propertyState r)
               end
          else None;
        isInterstate :=
          bool_decide (clientState r ≠ Unknown) && bool_decide (propertyState r ≠ Unknown)
          && bool_decide (clientState r ≠ propertyState r) |}, p.2).
Proof.
  unfold geocodeRow, client_lookup, property_lookup, mbind, M_bind, mret, M_ret.
  destruct (JS.truthy (hasClientLocation r) && negb (String.eqb (clientAddress r) ""));
    [destruct (geocodeAddress w (clientAddress r) s) as [fc s1]|];
    cbn [fst snd];
    (destruct (JS.truthy (hasPropertyLocation r)
               && negb (String.eqb (propertyAddress r) ""));
     [match goal with
      | |- context [geocodeAddress w (propertyAddress r) ?t] =>
          destruct (geocodeAddress w (propertyAddress r) t) as [fp s2]
      end|]);
    cbn [fst snd]; rewrite ?or_fallback_state; reflexivity.
Qed.

(** X6: on a page without the geocoding service, processing writes nothing
    (no cache entry, nothing stored, no request), and every address that is
    looked up gets the centroid of its own region; every region has one. *)
Theorem processData_without_geocoder w rawData yr s :
  google w = None →
  (processData w rawData yr s).2 = s
  ∧ Forall
      (fun r =>
         clientCoords r =
           (if client_lookup (row r)
            then fallbackCoords !! state_name (clientState (row r)) else None)
         ∧ propertyCoords r =
             (if property_lookup (row r)
              then fallbackCoords !! state_name (propertyState (row r)) else None))
      (processData w rawData yr s).1
  ∧ ∀ st, is_Some (fallbackCoords !! state_name st).
Proof.
  intros Hg. split; [|split; [|apply fallback_total]].
  - unfold processData. generalize (map (cleanRow yr) (List.filter hasName rawData)) as data.
    intros data. revert s. induction data as [|r data IH]; intros s; [done|].
    cbn [addGeocoding]. unfold mbind, M_bind, mret, M_ret.
    rewrite geocodeRow_lookups. cbv zeta.
    rewrite !(geocodeAddress_no_google w _ _ Hg).
    destruct (client_lookup r), (property_lookup r); cbn [fst snd];
      specialize (IH s); destruct (addGeocoding w data s); by simpl in *.
  - eapply Forall_impl; [apply processData_each|].
    intros rec (raw & s' & _ & _ & ->).
    rewrite geocodeRow_lookups. cbv zeta.
    rewrite !(geocodeAddress_no_google w _ _ Hg).
    by destruct (client_lookup _), (property_lookup _).
Qed.

Lemma processData_without_geocoder_witness :
  google sample_world = None
  ∧ (processData sample_world [row_ann; row_comma] None (fresh_sys empty_storage)).2
    = fresh_sys empty_storage.
Proof.
  split; [reflexivity|].
  exact (proj1 (processData_without_geocoder sample_world [row_ann; row_comma] None
                  (fresh_sys empty_storage) eq_refl)).
Defined.

Lemma cache_extends_refl s : cache_extends s s.
Proof. by intros k v. Qed.

Lemma cache_extends_trans s1 s2 s3 :
  cache_extends s1 s2 → cache_extends s2 s3 → cache_extends s1 s3.
Proof. intros H12 H23 k v Hk. by apply H23, H12. Qed.

Lemma geocodeAddress_settled w a s :
  never_throws w →
  cache_extends s (geocodeAddress w a s).2
  ∧ ∀ s'', cache_extends (geocodeAddress w a s).2 s'' →
      geocodeAddress w a s'' = ((geocodeAddress w a s).1, s'').
Proof.
  unfold never_throws, geocodeAddress. intros Hw.
  destruct (String.eqb a ""); [split; [apply cache_extends_refl|done]|].
  destruct (google w) as [geocode|]; [|split; [apply cache_extends_refl|done]].
  unfold mbind, M_bind, mret, M_ret, get_loader. cbn [fst snd].
  destruct (geocodeCache (loader s) !! JS.toLowerCase a) as [cached|] eqn:Hk.
  - split; [apply cache_extends_refl|]. cbn [fst snd]. intros s'' Hext.
    by rewrite (Hext _ _ Hk).
  - unfold ask_geocoder. specialize (Hw (requests s) a).
    destruct (geocode (requests s) a) as [status results|]; [|done].
    unfold geocodeCache_set, mbind, M_bind, get_loader, set_loader. cbn [fst snd loader].
    match goal with |- context [saveGeocodeCache ?t] =>
      pose proof (saveGeocodeCache_loader t) as Hl; destruct (saveGeocodeCache t) as [u s1]
    end.
    cbn [fst snd loader geocodeCache] in *. split.
    + intros k v Hkv. rewrite Hl. cbn [geocodeCache].
      rewrite lookup_insert_ne; [done|]. intros <-. congruence.
    + intros s'' Hext.
      assert (Hhit : geocodeCache (loader s'') !! JS.toLowerCase a
                     = Some (if String.eqb status "OK" then head results else None)).
      { apply Hext. rewrite Hl. cbn [geocodeCache]. apply lookup_insert_eq. }
      by rewrite Hhit.
Qed.

Lemma geocodeRow_settled w r s :
  never_throws w →
  cache_extends s (geocodeRow w r s).2
  ∧ ∀ s'', cache_extends (geocodeRow w r s).2 s'' →
      geocodeRow w r s'' = ((geocodeRow w r s).1, s'').
Proof.
  intros Hw. rewrite geocodeRow_lookups. cbv zeta.
  set (c := if client_lookup r then geocodeAddress w (clientAddress r) s else (None, s)).
  assert (Hc : cache_extends s c.2
               ∧ ∀ s'', cache_extends c.2 s'' →
                   (if client_lookup r then geocodeAddress w (clientAddress r) s''
                    else (None, s'')) = (c.1, s'')).
  { unfold c. destruct (client_lookup r); [by apply geocodeAddress_settled|].
    split; [apply cache_extends_refl|done]. }
  set (p := if property_lookup r then geocodeAddress w (propertyAddress r) c.2
            else (None, c.2)).
  assert (Hp : cache_extends c.2 p.2
               ∧ ∀ s'', cache_extends p.2 s'' →
                   (if property_lookup r then geocodeAddress w (propertyAddress r) s''
                    else (None, s'')) = (p.1, s'')).
  { unfold p. destruct (property_lookup r); [by apply geocodeAddress_settled|].
    split; [apply cache_extends_refl|done]. }
  destruct Hc as [Hc1 Hc2], Hp as [Hp1 Hp2]. cbn [fst snd]. split.
  - by eapply cache_extends_trans.
  - intros s'' Hext. rewrite geocodeRow_lookups. cbv zeta.
    rewrite (Hc2 s'') by (by eapply cache_extends_trans). cbn [fst snd].
    by rewrite (Hp2 s'' Hext).
Qed.

Lemma addGeocoding_settled w data : ∀ s,
  never_throws w →
  cache_extends s (addGeocoding w data s).2
  ∧ ∀ s'', cache_extends (addGeocoding w data s).2 s'' →
      addGeocoding w data s'' = ((addGeocoding w data s).1, s'').
Proof.
  induction data as [|r data IH]; intros s Hw.
  - split; [apply cache_extends_refl|done].
  - cbn [addGeocoding]. unfold mbind, M_bind, mret, M_ret.
    destruct (geocodeRow_settled w r s Hw) as [Hr1 Hr2].
    destruct (geocodeRow w r s) as [rec s1]. cbn [fst snd] in *.
    destruct (IH s1 Hw) as [Hd1 Hd2].
    destruct (addGeocoding w data s1) as [recs s2]. cbn [fst snd] in *.
    split; [by eapply cache_extends_trans|].
    intros s'' Hext. rewrite (Hr2 s'') by (by eapply cache_extends_trans).
    by rewrite (Hd2 s'' Hext).
Qed.

(** X7: when the geocoding service never throws, processing the same rows a
    second time changes nothing and gives the same records: every address is
    then answered from the cache, without a request to the service and
    without a write to the store. *)
Theorem processData_twice w rawData yr s :
  never_throws w →
  processData w rawData yr (processData w rawData yr s).2 = processData w rawData yr s.
Proof.
  intros Hw. unfold processData.
  destruct (addGeocoding_settled w (map (cleanRow yr) (List.filter hasName rawData)) s Hw)
    as [_ H].
  rewrite (H _ (cache_extends_refl _)).
  by destruct (addGeocoding w _ s).
Qed.

Lemma locating_world_never_throws : never_throws locating_world.
Proof. intros log address. discriminate. Qed.

Lemma processData_twice_witness :
  never_throws locating_world
  ∧ processData locating_world [row_ann; row_bob] None
      (processData locating_world [row_ann; row_bob] None (fresh_sys empty_storage)).2
    = processData locating_world [row_ann; row_bob] None (fresh_sys empty_storage).
Proof.
  split; [exact locating_world_never_throws|].
  exact (processData_twice locating_world [row_ann; row_bob] None (fresh_sys empty_storage)
           locating_world_never_throws).
Defined.

Lemma geocodeAddress_miss_step w geocode a s :
  google w = Some geocode → a ≠ "" →
  geocodeCache (loader s) !! JS.toLowerCase a = None →
  geocode (requests s) a = Throws
  ∨ ∃ status results,
      geocode (requests s) a = Callback status results
      ∧ geocodeAddress w a s
        = (if String.eqb status "OK" then head results else None,
           (geocodeAddress w a s).2)
      ∧ geocodeCache (loader (geocodeAddress w a s).2)
        = <[JS.toLowerCase a := if String.eqb status "OK" then head results else None]>
            (geocodeCache (loader s)).
Proof.
  intros Hg Ha Hk. unfold geocodeAddress. rewrite (eqb_empty_false _ Ha), Hg.
  unfold mbind, M_bind, mret, M_ret, get_loader. cbn [fst snd]. rewrite Hk.
  unfold ask_geocoder.
  destruct (geocode (requests s) a) as [status results|]; [right|by left].
  exists status, results. split; [done|].
  unfold geocodeCache_set, mbind, M_bind, get_loader, set_loader. cbn [fst snd loader].
  match goal with |- context [saveGeocodeCache ?t] =>
    pose proof (saveGeocodeCache_loader t) as Hl; destruct (saveGeocodeCache t) as [u s1]
  end.
  cbn [fst snd] in *. split; [done|]. by rewrite Hl.
Qed.

Lemma geocodeAddress_hit w geocode a s v :
  google w = Some geocode → a ≠ "" →
  geocodeCache (loader s) !! JS.toLowerCase a = Some v →
  geocodeAddress w a s = (v, s).
Proof.
  intros Hg Ha Hk. unfold geocodeAddress. rewrite (eqb_empty_false _ Ha), Hg.
  unfold mbind, M_bind, mret, M_ret, get_loader. by rewrite Hk.
Qed.

Lemma geocodeAddress_result_cached w geocode a s :
  never_throws w → google w = Some geocode → a ≠ "" →
  geocodeCache (loader (geocodeAddress w a s).2) !! JS.toLowerCase a
  = Some (geocodeAddress w a s).1.
Proof.
  intros Hw Hg Ha. unfold never_throws in Hw. rewrite Hg in Hw.
  destruct (geocodeCache (loader s) !! JS.toLowerCase a) as [v|] eqn:Hk.
  - by rewrite (geocodeAddress_hit w geocode a s v Hg Ha Hk).
  - destruct (geocodeAddress_miss_step w geocode a s Hg Ha Hk) as [Hstep|Hstep].
    + by apply Hw in Hstep.
    + destruct Hstep as (status & results & _ & Heq & Hc).
      rewrite Hc, Heq. cbn [fst]. apply lookup_insert_eq.
Qed.

(** X8: the cache is keyed by the lower-cased address: after a lookup of an
    address whose request did not throw, a lookup of any address that differs
    from it only in case returns the same result and leaves everything as it
    is. *)
Theorem geocodeAddress_ignores_case w a b s :
  never_throws w →
  a ≠ "" → b ≠ "" →
  JS.toLowerCase a = JS.toLowerCase b →
  geocodeAddress w b (geocodeAddress w a s).2
  = ((geocodeAddress w a s).1, (geocodeAddress w a s).2).
Proof.
  intros Hw Ha Hb Hab.
  destruct (google w) as [geocode|] eqn:Hg.
  - apply (geocodeAddress_hit w geocode b _ _ Hg Hb).
    rewrite <- Hab. by apply (geocodeAddress_result_cached w geocode).
  - by rewrite !(geocodeAddress_no_google w _ _ Hg).
Qed.

Lemma geocodeAddress_ignores_case_witness :
  never_throws locating_world
  ∧ "1 Pitt St" ≠ "" ∧ "1 PITT ST" ≠ ""
  ∧ JS.toLowerCase "1 Pitt St" = JS.toLowerCase "1 PITT ST"
  ∧ geocodeAddress locating_world "1 PITT ST"
      (geocodeAddress locating_world "1 Pitt St" (fresh_sys empty_storage)).2
    = ((geocodeAddress locating_world "1 Pitt St" (fresh_sys empty_storage)).1,
       (geocodeAddress locating_world "1 Pitt St" (fresh_sys empty_storage)).2).
Proof.
  assert (Ha : "1 Pitt St" ≠ "") by discriminate.
  assert (Hb : "1 PITT ST" ≠ "") by discriminate.
  assert (Hab : JS.toLowerCase "1 Pitt St" = JS.toLowerCase "1 PITT ST") by reflexivity.
  split; [exact locating_world_never_throws|]. split; [exact Ha|]. split; [exact Hb|].
  split; [exact Hab|].
  exact (geocodeAddress_ignores_case locating_world "1 Pitt St" "1 PITT ST"
           (fresh_sys empty_storage) locating_world_never_throws Ha Hb Hab).
Defined.

(** ** Loading, loading again, refreshing, clearing *)

Lemma loadOneYear_cases w y s :
  match (loadOneYear w y s).1 with
  | Ok recs =>
      cache (loader (loadOneYear w y s).2) !! y = Some recs
      ∧ (∀ k, k ≠ y → cache (loader (loadOneYear w y s).2) !! k = cache (loader s) !! k)
      ∧ (∀ d, cache (loader s) !! y = Some d → d = recs)
  | Throw _ => (loadOneYear w y s).2 = s ∧ cache (loader s) !! y = None
  end.
Proof.
  unfold loadOneYear, mbind, M_bind, mret, M_ret, get_loader. cbn [fst snd].
  destruct (cache (loader s) !! y) as [cached|] eqn:Hy; cbn [fst snd].
  - split; [done|]. split; [done|]. by intros d [= <-].
  - destruct (fetch w _) as [msg|ok statusText rows]; cbn [fst snd]; [done|].
    destruct ok; cbn [negb fst snd]; [|done].
    pose proof (addGeocoding_cache w (map (cleanRow (Some y)) (List.filter hasName rows)) s)
      as Hcache.
    fold (processData w rows (Some y)) in Hcache.
    destruct (processData w rows (Some y) s) as [processed s1].
    unfold cache_set, mbind, M_bind, get_loader, set_loader. cbn [fst snd loader cache] in *.
    split; [apply lookup_insert_eq|]. split; [|done].
    intros k Hk. rewrite lookup_insert_ne by done. by rewrite Hcache.
Qed.

(** X9: a year that was loaded is answered from the cache: a second load
    returns the same records without a fetch (whatever the files have become)
    and changes nothing.  A load that fails changes nothing at all: nothing
    is cached for the year, so that the next load fetches again. *)
Theorem loadOneYear_again w y s :
  match (loadOneYear w y s).1 with
  | Ok recs =>
      ∀ w', loadOneYear w' y (loadOneYear w y s).2 = (Ok recs, (loadOneYear w y s).2)
  | Throw _ =>
      (loadOneYear w y s).2 = s ∧ cache (loader s) !! y = None
  end.
Proof.
  pose proof (loadOneYear_cases w y s) as H.
  destruct (loadOneYear w y s) as [[recs|e] s1]; cbn [fst snd] in *; [|done].
  destruct H as (Hy & _). intros w'.
  unfold loadOneYear, mbind, M_bind, mret, M_ret, get_loader. cbn [fst snd].
  by rewrite Hy.
Qed.

Lemma loadOneYear_miss w y s :
  cache (loader s) !! y = None →
  loadOneYear w y s =
    match fetch w ("data/" +:+ y +:+ ".csv") with
    | NetworkError message => (Throw message, s)
    | Response false statusText _ =>
        (Throw ("Failed to load " +:+ y +:+ ".csv: " +:+ statusText), s)
    | Response true _ rows =>
        (Ok (processData w rows (Some y) s).1,
         (cache_set y (processData w rows (Some y) s).1
            (processData w rows (Some y) s).2).2)
    end.
Proof.
  intros Hy. unfold loadOneYear, mbind, M_bind, mret, M_ret, get_loader. cbn [fst snd].
  rewrite Hy. destruct (fetch w _) as [msg|[] statusText rows]; cbn [negb]; try done.
  by destruct (processData w rows (Some y) s).
Qed.

Lemma loadYearData_one w order y s :
  y ≠ "all" →
  loadYearData w order y s = (OneYear <$> (loadOneYear w y s).1, (loadOneYear w y s).2).
Proof.
  intros Hy. unfold loadYearData. rewrite (proj2 (String.eqb_neq y "all") Hy).
  unfold mbind, M_bind, mret, M_ret. by destruct (loadOneYear w y s).
Qed.

(** X10: refreshing a year whose file has not changed, on a page whose
    geocoding service never throws, fetches and processes the file again and
    ends in the state it started from, with the same records: no address is
    sent to the service a second time. *)
Theorem refresh_of_an_unchanged_file w order y s recs s1 :
  never_throws w →
  y ≠ "all" →
  cache (loader s) !! y = None →
  loadYearData w order y s = (Ok (OneYear recs), s1) →
  refreshData w order y s1 = (Ok (OneYear recs), s1).
Proof.
  intros Hw Hy Hmiss Hload.
  rewrite (loadYearData_one w order y s Hy), (loadOneYear_miss w y s Hmiss) in Hload.
  unfold refreshData, cache_delete, mbind, M_bind, get_loader, set_loader. cbn [fst snd].
  rewrite (loadYearData_one _ _ _ _ Hy).
  destruct (fetch w ("data/" +:+ y +:+ ".csv")) as [msg|[] statusText rows] eqn:Hf;
    cbn [fst snd fmap Result_fmap] in Hload; try done.
  injection Hload as <- <-.
  set (p := processData w rows (Some y) s).
  assert (Hc : cache (loader p.2) = cache (loader s)).
  { apply (addGeocoding_cache w (map (cleanRow (Some y)) (List.filter hasName rows)) s). }
  unfold cache_set, mbind, M_bind, get_loader, set_loader.
  cbn [fst snd loader cache geocodeCache localStorage requests].
  set (s1' := {| loader := {| cache := delete y (<[y := p.1]> (cache (loader p.2)));
                              geocodeCache := geocodeCache (loader p.2) |};
                 localStorage := localStorage p.2; requests := requests p.2 |}).
  assert (Hmiss' : cache (loader s1') !! y = None) by apply lookup_delete_eq.
  rewrite (loadOneYear_miss w y s1' Hmiss'), Hf.
  assert (Hp : processData w rows (Some y) s1' = (p.1, s1')).
  { unfold p, processData.
    apply (addGeocoding_settled w (map (cleanRow (Some y)) (List.filter hasName rows)) s Hw).
    by intros k v. }
  rewrite Hp. cbn [fst snd fmap Result_fmap].
  unfold cache_set, mbind, M_bind, get_loader, set_loader, s1'.
  cbn [fst snd loader cache geocodeCache localStorage requests].
  by rewrite insert_delete_eq, insert_insert_eq.
Qed.

Lemma refresh_of_an_unchanged_file_witness :
  never_throws locating_world
  ∧ "2022" ≠ "all"
  ∧ cache (loader (fresh_sys empty_storage)) !! "2022" = None
  ∧ refreshData locating_world years "2022"
      (loadYearData locating_world years "2022" (fresh_sys empty_storage)).2
    = (Ok (OneYear (year_records
                      (fun y => (loadOneYear locating_world y (fresh_sys empty_storage)).1)
                      "2022")),
       (loadYearData locating_world years "2022" (fresh_sys empty_storage)).2).
Proof.
  assert (Hy : "2022" ≠ "all") by discriminate.
  assert (Hm : cache (loader (fresh_sys empty_storage)) !! "2022" = None) by reflexivity.
  split; [exact locating_world_never_throws|]. split; [exact Hy|]. split; [exact Hm|].
  apply (refresh_of_an_unchanged_file locating_world years "2022" (fresh_sys empty_storage)
           _ _ locating_world_never_throws Hy Hm).
  by vm_compute.
Defined.

(** X11: after [clearCache] the loader is as a newly constructed one over the
    store: both caches are empty, and a new instance loads an empty geocode
    cache whatever the store accepted or held before. *)
Theorem clearCache_is_a_restart s :
  loader (clearCache s).2 = new_DataLoader (localStorage (clearCache s).2)
  ∧ loadGeocodeCache (localStorage (clearCache s).2) = ∅
  ∧ ∀ w y, loadOneYear w y (clearCache s).2
           = loadOneYear w y
               {| loader := new_DataLoader (localStorage (clearCache s).2);
                  localStorage := localStorage (clearCache s).2;
                  requests := requests s |}.
Proof.
  assert (H : loadGeocodeCache (localStorage (clearCache s).2) = ∅).
  { unfold clearCache, loadGeocodeCache, getItem, removeItem. cbn [snd localStorage items].
    by rewrite lookup_delete_eq. }
  assert (Hl : loader (clearCache s).2 = new_DataLoader (localStorage (clearCache s).2)).
  { unfold new_DataLoader. by rewrite H. }
  split; [exact Hl|]. split; [exact H|]. intros w y. by rewrite <- Hl.
Qed.

(** ** The multi-year load and the cache of the years *)









(** ** What is drawn on the maps *)

(** X13: whatever the record, it adds at most two markers and at most one
    line to the map, and no line without a marker; a record of display type
    [skip], and any record when there is no map, adds nothing; what was on
    display stays. *)
Theorem addClientToMap_adds client map m :
  ∃ ms ls,
    markers (addClientToMap client map m) = markers m ++ ms
    ∧ polylines (addClientToMap client map m) = polylines m ++ ls
    ∧ length ms ≤ 2 ∧ length ls ≤ 1
    ∧ (ls ≠ [] → ms ≠ [])
    ∧ (mapDisplayType (row client) = skip → ms = [] ∧ ls = [])
    ∧ (map = None → ms = [] ∧ ls = []).
Proof.
  unfold addClientToMap, addConnectionLine, push_marker.
  destruct map as [map|];
    [|exists [], []; rewrite !app_nil_r; repeat split; try done; cbn; lia].
  destruct (mapDisplayType (row client));
    destruct (clientCoords client) as [c|];
    destruct (propertyCoords client) as [p|];
    destruct (JS.truthy (hasClientLocation (row client)));
    destruct (JS.truthy (hasPropertyLocation (row client)));
    cbn [markers polylines];
    rewrite <- ?app_assoc; cbn [app];
    first [ by (eexists [_; _], [_]; repeat split; try done; cbn; lia)
          | by (eexists [_], [_]; repeat split; try done; cbn; lia)
          | by (eexists [_; _], []; rewrite ?app_nil_r; repeat split; try done; cbn; lia)
          | by (eexists [_], []; rewrite ?app_nil_r; repeat split; try done; cbn; lia)
          | by (exists [], []; rewrite ?app_nil_r; repeat split; try done; cbn; lia) ].
Qed.

Lemma processed_coords w rawData yr s :
  Forall
    (fun r =>
       (is_Some (clientCoords r) ↔ client_lookup (row r) = true)
       ∧ (is_Some (propertyCoords r) ↔ property_lookup (row r) = true)
       ∧ mapDisplayType (row r)
         = determineMapDisplayType (hasClientLocation (row r)) (hasPropertyLocation (row r)))
    (processData w rawData yr s).1.
Proof.
  eapply Forall_impl; [apply processData_each|].
  intros rec (raw & s' & _ & _ & ->).
  rewrite geocodeRow_lookups. cbv zeta. cbn [fst snd row clientCoords propertyCoords].
  split; [|split; [|reflexivity]].
  - destruct (client_lookup (cleanRow yr raw)).
    + split; [done|]. intros _.
      destruct (geocodeAddress _ _ _).1; [by eauto|apply fallback_total].
    + split; [intros [? ?]; discriminate|discriminate].
  - destruct (property_lookup (cleanRow yr raw)).
    + split; [done|]. intros _.
      match goal with |- is_Some (match ?x with _ => _ end) => destruct x end;
        [by eauto|apply fallback_total].
    + split; [intros [? ?]; discriminate|discriminate].
Qed.

(** X14: for a processed record, the client marker is drawn exactly when the
    client address was looked up (flag set, cleaned address not empty); the
    property marker exactly when, besides, the client flag is set and the
    property address was looked up; the line exactly when both addresses were
    looked up.  A row with a property address only is geocoded and never
    drawn. *)
Theorem drawing_a_processed_record w rawData yr s map m :
  Forall
    (fun r =>
       let m' := addClientToMap r (Some map) m in
       length (markers m')
       = length (markers m)
         + (if client_lookup (row r) then 1 else 0)
         + (if JS.truthy (hasClientLocation (row r)) && property_lookup (row r)
            then 1 else 0)
       ∧ length (polylines m')
         = length (polylines m)
           + (if client_lookup (row r) && property_lookup (row r) then 1 else 0))
    (processData w rawData yr s).1.
Proof.
  eapply Forall_impl; [apply processed_coords|].
  intros r (Hc & Hp & Ht). cbv zeta.
  unfold addClientToMap, addConnectionLine, push_marker. rewrite Ht.
  unfold determineMapDisplayType, client_lookup, property_lookup in *.
  destruct (JS.truthy (hasClientLocation (row r))) eqn:Fc;
    destruct (JS.truthy (hasPropertyLocation (row r))) eqn:Fp;
    cbn [andb negb] in *;
    destruct (clientCoords r) as [c|];
    destruct (propertyCoords r) as [p|];
    destruct (negb (String.eqb (clientAddress (row r)) ""));
    destruct (negb (String.eqb (propertyAddress (row r)) ""));
    cbn [andb] in *; rewrite ?Fc, ?Fp; cbn [markers polylines];
    rewrite ?length_app; cbn [length];
    try (split; lia);
    exfalso;
    repeat match goal with
           | H : is_Some None ↔ _ |- _ => destruct H as [_ H]; destruct H; [done|discriminate]
           | H : is_Some (Some _) ↔ false = true |- _ =>
               destruct H as [H _]; specialize (H (ex_intro _ _ eq_refl)); discriminate
           end.
Qed.

Lemma addClientToMap_on_map client map : ∀ m,
  Forall (fun mk => marker_map mk = map) (markers m) →
  Forall (fun l => line_map l = map) (polylines m) →
  Forall (fun mk => marker_map mk = map) (markers (addClientToMap client (Some map) m))
  ∧ Forall (fun l => line_map l = map) (polylines (addClientToMap client (Some map) m)).
Proof.
  intros m Hm Hl. unfold addClientToMap, addConnectionLine, push_marker.
  destruct (mapDisplayType (row client));
    destruct (clientCoords client) as [c|];
    destruct (propertyCoords client) as [p|];
    destruct (JS.truthy (hasClientLocation (row client)));
    destruct (JS.truthy (hasPropertyLocation (row client)));
    cbn [markers polylines]; split;
    repeat (apply Forall_app; split); try done;
    by repeat constructor.
Qed.

Lemma draw_on_map data map : ∀ m,
  Forall (fun mk => marker_map mk = map) (markers m) →
  Forall (fun l => line_map l = map) (polylines m) →
  Forall (fun mk => marker_map mk = map)
         (markers (foldl (fun m client => addClientToMap client (Some map) m) m data))
  ∧ Forall (fun l => line_map l = map)
           (polylines (foldl (fun m client => addClientToMap client (Some map) m) m data)).
Proof.
  induction data as [|client data IH]; intros m Hm Hl; [done|].
  cbn [foldl]. destruct (addClientToMap_on_map client map m Hm Hl) as [Hm' Hl'].
  by apply IH.
Qed.

(** X15: [updateMultipleMaps] clears every map before it draws a year
    ([clearYearMap] is [clearMap]).  When the four year maps exist, what is on
    display afterwards is what the records of 2025 draw on the map of 2025,
    whatever the other years hold and whatever was on display; the maps of
    2022, 2023 and 2024 are left empty, while a count text is written for each
    of the four years. *)
Theorem updateMultipleMaps_shows_the_last_year allData m :
  (updateMultipleMaps allData (fun _ => true) m).1
  = foldl (fun m client => addClientToMap client (Some "2025") m)
          {| markers := []; polylines := [] |} (default [] (byYear allData !! "2025"))
  ∧ Forall (fun mk => marker_map mk = "2025")
           (markers (updateMultipleMaps allData (fun _ => true) m).1)
  ∧ Forall (fun l => line_map l = "2025")
           (polylines (updateMultipleMaps allData (fun _ => true) m).1)
  ∧ (updateMultipleMaps allData (fun _ => true) m).2
    = map (fun y => (y, count_text (default [] (byYear allData !! y)))) years.
Proof.
  assert (H : (updateMultipleMaps allData (fun _ => true) m).1
              = foldl (fun m client => addClientToMap client (Some "2025") m)
                      {| markers := []; polylines := [] |}
                      (default [] (byYear allData !! "2025"))) by reflexivity.
  split; [exact H|]. rewrite H.
  split; [|split; [|reflexivity]];
    by apply (draw_on_map _ "2025" {| markers := []; polylines := [] |}).
Qed.

(** ** The exported text *)

Lemma cell_prefix a : ∀ b r1 r2,
  csv_cell a ++ r1 = csv_cell b ++ r2 →
  head r1 ≠ Some quote → head r2 ≠ Some quote →
  a = b ∧ r1 = r2.
Proof.
  unfold csv_cell. intros b r1 r2 H. injection H as H. revert b r1 r2 H.
  induction a as [|c a IH]; intros [|d b] r1 r2 H H1 H2; cbn in H.
  - by injection H as ->.
  - exfalso. destruct (Ascii.eqb_spec d quote) as [->|Hd]; cbn in H.
    + injection H as ->. by apply H1.
    + injection H as <-. done.
  - exfalso. destruct (Ascii.eqb_spec c quote) as [->|Hc]; cbn in H.
    + injection H as <-. by apply H2.
    + injection H as ->. done.
  - destruct (Ascii.eqb_spec c quote) as [->|Hc];
      destruct (Ascii.eqb_spec d quote) as [->|Hd]; cbn in H.
    + injection H as H. destruct (IH b r1 r2 H H1 H2) as [-> ->]. done.
    + injection H as <- _. done.
    + injection H as -> _. done.
    + injection H as -> H. destruct (IH b r1 r2 H H1 H2) as [-> ->]. done.
Qed.

Lemma csv_cell_head cell r : head (csv_cell cell ++ r) = Some quote.
Proof. done. Qed.

Lemma row_prefix cells1 : ∀ cells2 r1 r2,
  cells1 ≠ [] → cells2 ≠ [] →
  join [comma] (map csv_cell cells1) ++ r1 = join [comma] (map csv_cell cells2) ++ r2 →
  head r1 ≠ Some quote → head r1 ≠ Some comma →
  head r2 ≠ Some quote → head r2 ≠ Some comma →
  cells1 = cells2 ∧ r1 = r2.
Proof.
  induction cells1 as [|a [|a' cells1] IH]; intros [|b [|b' cells2]] r1 r2 Hn1 Hn2 H Hq1 Hc1 Hq2 Hc2;
    try done.
  - cbn [map join] in H. by destruct (cell_prefix a b r1 r2 H Hq1 Hq2) as [-> ->].
  - exfalso. cbn [map join] in H. rewrite <- !app_assoc in H.
    destruct (cell_prefix a b _ _ H Hq1) as [_ ->]; [done|]. by apply Hc1.
  - exfalso. cbn [map join] in H. rewrite <- !app_assoc in H.
    destruct (cell_prefix a b _ _ H) as [_ <-]; [done|done|]. by apply Hc2.
  - change (join [comma] (map csv_cell (a :: a' :: cells1)))
      with (csv_cell a ++ [comma] ++ join [comma] (map csv_cell (a' :: cells1))) in H.
    change (join [comma] (map csv_cell (b :: b' :: cells2)))
      with (csv_cell b ++ [comma] ++ join [comma] (map csv_cell (b' :: cells2))) in H.
    rewrite <- !app_assoc in H.
    destruct (cell_prefix a b _ _ H) as [-> H']; [done|done|].
    injection H' as H'.
    destruct (IH (b' :: cells2) r1 r2) as [-> ->]; done.
Qed.

Lemma row_head cells r :
  cells ≠ [] → head (join [comma] (map csv_cell cells) ++ r) = Some quote.
Proof. by destruct cells as [|a [|a' cells]]. Qed.

Lemma table_text rows1 : ∀ rows2,
  Forall (fun row => row ≠ []) rows1 → Forall (fun row => row ≠ []) rows2 →
  rows1 ≠ [] → rows2 ≠ [] →
  join [newline] (map (fun row => join [comma] (map csv_cell row)) rows1)
  = join [newline] (map (fun row => join [comma] (map csv_cell row)) rows2) →
  rows1 = rows2.
Proof.
  induction rows1 as [|a [|a' rows1] IH]; intros [|b [|b' rows2]] H1 H2 Hn1 Hn2 H;
    try done;
    apply Forall_cons in H1 as [Ha H1]; apply Forall_cons in H2 as [Hb H2].
  - cbn [map join] in H.
    destruct (row_prefix a b [] []) as [-> _]; rewrite ?app_nil_r; done.
  - exfalso. cbn [map join] in H.
    destruct (row_prefix a b [] ([newline] ++ join [newline]
                (map (fun row => join [comma] (map csv_cell row)) (b' :: rows2))))
      as [_ Hr]; rewrite ?app_nil_r; try done.
  - exfalso. cbn [map join] in H.
    destruct (row_prefix a b ([newline] ++ join [newline]
                (map (fun row => join [comma] (map csv_cell row)) (a' :: rows1))) [])
      as [_ Hr]; rewrite ?app_nil_r; try done.
  - change (join [comma] (map csv_cell a) ++ [newline]
            ++ join [newline] (map (fun row => join [comma] (map csv_cell row)) (a' :: rows1))
            = join [comma] (map csv_cell b) ++ [newline]
              ++ join [newline] (map (fun row => join [comma] (map csv_cell row))
                                     (b' :: rows2))) in H.
    destruct (row_prefix a b _ _ Ha Hb H) as [-> H']; try done.
    injection H' as H'. f_equal. by apply IH.
Qed.

(** X16: the exported text tells the table: two exports with the same text
    have the same cells, row by row, whatever quotes, commas and line feeds
    the cells contain. *)
Theorem exportData_is_readable data1 year1 data2 year2 :
  (exportData data1 year1).2 = (exportData data2 year2).2 →
  map (export_row year1) (exported_records data1)
  = map (export_row year2) (exported_records data2).
Proof.
  unfold exportData, csvContent. cbn [snd]. intros H.
  apply (f_equal JS.chars) in H. rewrite !chars_str in H.
  set (t1 := export_headers :: map (export_row year1) (exported_records data1)) in *.
  set (t2 := export_headers :: map (export_row year2) (exported_records data2)) in *.
  assert (Hrows : ∀ t : list (list string),
            map (fun row => join [comma] (map (fun cell => csv_cell (JS.chars cell)) row)) t
            = map (fun row => join [comma] (map csv_cell row)) (map (map JS.chars) t)).
  { intros t. rewrite map_map. apply map_ext. intros row. by rewrite map_map. }
  rewrite !Hrows in H.
  assert (Hne : ∀ y d, Forall (fun row => row ≠ [])
                         (map (map JS.chars) (export_headers :: map (export_row y) d))).
  { intros y d. constructor; [done|]. induction d; by constructor. }
  apply table_text in H; [|apply Hne|apply Hne|done|done].
  assert (Hinj : ∀ a b : list (list string),
            map (map JS.chars) a = map (map JS.chars) b → a = b).
  { assert (Hrow : ∀ a b : list string, map JS.chars a = map JS.chars b → a = b).
    { induction a as [|x a IH]; intros [|y b] E; try done.
      injection E as Ex E. f_equal; [|by apply IH].
      apply (f_equal JS.str) in Ex. unfold JS.str, JS.chars in Ex.
      by rewrite !string_of_list_ascii_of_string in Ex. }
    induction a as [|x a IH]; intros [|y b] E; try done.
    injection E as Ex E. f_equal; [by apply Hrow|by apply IH]. }
  apply Hinj in H. unfold t1, t2 in H. by injection H.
Qed.

Lemma exportData_is_readable_witness :
  (exportData (OneYear sample_records_2022) "2022").2
  = (exportData (AllYears {| combined := sample_records_2022; byYear := ∅ |}) "all").2
  ∧ map (export_row "2022") sample_records_2022
    = map (export_row "all") sample_records_2022.
Proof.
  assert (H : (exportData (OneYear sample_records_2022) "2022").2
              = (exportData (AllYears {| combined := sample_records_2022; byYear := ∅ |})
                   "all").2) by (by vm_compute).
  split; [exact H|].
  exact (exportData_is_readable (OneYear sample_records_2022) "2022"
           (AllYears {| combined := sample_records_2022; byYear := ∅ |}) "all" H).
Defined.

(** ** Cleaned addresses *)

Lemma trim_chars_Forall (P : ascii → Prop) l : Forall P l → Forall P (JS.trim_chars l).
Proof.
  assert (Hskip : ∀ l, Forall P l → Forall P (JS.skip_spaces l)).
  { induction l0 as [|c l0 IH]; intros H; [done|]. cbn.
    destruct (JS.is_space c); [|done]. apply IH. by apply Forall_cons in H as [_ H]. }
  intros H. unfold JS.trim_chars.
  apply Forall_forall. intros x Hx%list_elem_of_In%in_rev%list_elem_of_In. revert x Hx.
  apply Forall_forall, Hskip.
  apply Forall_forall. intros x Hx%list_elem_of_In%in_rev%list_elem_of_In. revert x Hx.
  by apply Forall_forall, Hskip.
Qed.

Lemma collapse_commas_Forall (P : ascii → Prop) n : ∀ l,
  Forall P l → Forall P (JS.collapse_commas n l).
Proof.
  assert (Hskip : ∀ l, Forall P l → Forall P (JS.skip_spaces l)).
  { induction l as [|c l IH]; intros H; [done|]. cbn.
    destruct (JS.is_space c); [|done]. apply IH. by apply Forall_cons in H as [_ H]. }
  induction n as [|n IH]; intros l H; [by destruct l|].
  destruct l as [|c r]; [done|]. apply Forall_cons in H as [Hc Hr].
  cbn [JS.collapse_commas].
  destruct (JS.is_comma c); [|by constructor; [|apply IH]].
  pose proof (Hskip r Hr) as Hs.
  destruct (JS.skip_spaces r) as [|d r']; [by constructor; [|apply IH]|].
  apply Forall_cons in Hs as [_ Hr'].
  destruct (JS.is_comma d); constructor; try done; by apply IH.
Qed.

Lemma strip_trailing_comma_Forall (P : ascii → Prop) l :
  Forall P l → Forall P (JS.strip_trailing_comma l).
Proof.
  induction 1 as [|c l Hc Hl IH]; [done|]. cbn.
  destruct (JS.is_comma c && forallb JS.is_space l); by constructor.
Qed.

Lemma replace_newlines_none l :
  Forall (fun c => JS.is_newline c = false) (JS.replace_newlines l).
Proof.
  unfold JS.replace_newlines. induction l as [|c l IH]; [done|].
  cbn [flat_map]. apply Forall_app. split; [|done].
  destruct (JS.is_newline c) eqn:Hc; by repeat constructor.
Qed.

(** X17: cleaning an address changes white space and commas only: the other
    characters come out unchanged and in their order, and the result holds no
    line feed. *)
Theorem cleanAddress_changes_separators_only address :
  List.filter solid (JS.chars (cleanAddress address)) = List.filter solid (JS.chars address)
  ∧ Forall (fun c => JS.is_newline c = false) (JS.chars (cleanAddress address)).
Proof.
  split; [apply cleanAddress_solid|].
  unfold cleanAddress. destruct (String.eqb address ""); [done|].
  rewrite chars_str.
  apply strip_trailing_comma_Forall, collapse_commas_Forall, replace_newlines_none.
Qed.

(** ** The totals of the region statistics *)

Lemma sum_stats_ensure (f : RegionStat → nat) key (stats : RegionStats) :
  f {| clients := 0; properties := 0 |} = 0 →
  sum_list_with (fun e => f (snd e)) (stats_ensure key stats)
  = sum_list_with (fun e => f (snd e)) stats.
Proof.
  intros Hf. unfold stats_ensure. destruct (stats_get key stats); [done|].
  rewrite sum_list_with_app. cbn. rewrite Hf. lia.
Qed.

Lemma sum_stats_update (f : RegionStat → nat) (g : RegionStat → RegionStat) (d : nat)
    key (stats : RegionStats) :
  (∀ v, f (g v) = f v + d) →
  NoDup (map fst stats) → key ∈ map fst stats →
  sum_list_with (fun e => f (snd e)) (stats_update g key stats)
  = sum_list_with (fun e => f (snd e)) stats + d.
Proof.
  intros Hg. unfold stats_update.
  induction stats as [|[k v] stats IH]; intros Hnd Hin; [by apply elem_of_nil in Hin|].
  cbn in Hnd, Hin. apply NoDup_cons in Hnd as [Hk Hnd].
  cbn. destruct (decide (k = key)) as [->|Hne]; cbn.
  - rewrite Hg.
    assert (Hsame : map (fun e => if decide (e.1 = key) then (e.1, g e.2) else e) stats = stats).
    { clear -Hk. induction stats as [|[k' v'] stats IH]; [done|]. cbn in *.
      apply not_elem_of_cons in Hk as [Hne Hk].
      rewrite decide_False by done. by rewrite IH. }
    rewrite Hsame. lia.
  - apply elem_of_cons in Hin as [?|Hin]; [congruence|].
    rewrite (IH Hnd Hin). lia.
Qed.

Lemma ensure_NoDup key (stats : RegionStats) :
  NoDup (map fst stats) →
  NoDup (map fst (stats_ensure key stats)) ∧ key ∈ map fst (stats_ensure key stats).
Proof.
  intros Hnd. rewrite stats_ensure_keys.
  destruct (decide (key ∈ map fst stats)) as [Hin|Hnin]; [done|]. split.
  - apply NoDup_app. split; [done|]. split; [|apply NoDup_singleton].
    intros x Hx Hx'%list_elem_of_singleton. by subst.
  - apply elem_of_app. right. by apply list_elem_of_singleton.
Qed.

Lemma count_regions_sums (stats : RegionStats) r :
  NoDup (map fst stats) →
  NoDup (map fst (count_regions stats r))
  ∧ sum_list_with (fun e => clients (snd e)) (count_regions stats r)
    = sum_list_with (fun e => clients (snd e)) stats + 1
  ∧ sum_list_with (fun e => properties (snd e)) (count_regions stats r)
    = sum_list_with (fun e => properties (snd e)) stats
      + (if bool_decide (propertyState (row r) ≠ Unknown) then 1 else 0).
Proof.
  intros Hnd. split.
  { rewrite count_regions_keys. by apply first_seen_NoDup. }
  assert (Gcc : ∀ v, clients (add_client v) = clients v + 1) by (intros v; cbn; lia).
  assert (Gpc : ∀ v, properties (add_client v) = properties v + 0) by (intros v; cbn; lia).
  assert (Gcp : ∀ v, clients (add_property v) = clients v + 0) by (intros v; cbn; lia).
  assert (Gpp : ∀ v, properties (add_property v) = properties v + 1)
    by (intros v; cbn; lia).
  unfold count_regions.
  destruct (ensure_NoDup (clientState (row r)) stats Hnd) as [Hnd1 Hin1].
  set (stats1 := stats_update add_client (clientState (row r))
                   (stats_ensure (clientState (row r)) stats)).
  assert (Hk1 : map fst stats1 = map fst (stats_ensure (clientState (row r)) stats))
    by apply stats_update_keys.
  assert (Hc1 : sum_list_with (fun e => clients (snd e)) stats1
                = sum_list_with (fun e => clients (snd e)) stats + 1).
  { unfold stats1. rewrite (sum_stats_update clients add_client 1 _ _ Gcc Hnd1 Hin1).
    by rewrite sum_stats_ensure. }
  assert (Hp1 : sum_list_with (fun e => properties (snd e)) stats1
                = sum_list_with (fun e => properties (snd e)) stats).
  { unfold stats1. rewrite (sum_stats_update properties add_client 0 _ _ Gpc Hnd1 Hin1).
    rewrite sum_stats_ensure by done. lia. }
  destruct (bool_decide (propertyState (row r) ≠ Unknown)); [|split; [done|lia]].
  assert (Hnd1' : NoDup (map fst stats1)) by (by rewrite Hk1).
  destruct (ensure_NoDup (propertyState (row r)) stats1 Hnd1') as [Hnd2 Hin2].
  split.
  - rewrite (sum_stats_update clients add_property 0 _ _ Gcp Hnd2 Hin2).
    rewrite sum_stats_ensure by done. lia.
  - rewrite (sum_stats_update properties add_property 1 _ _ Gpp Hnd2 Hin2).
    rewrite sum_stats_ensure by done. lia.
Qed.

(** X18: the client counts of the regions add up to the number of records,
    and the property counts to the number of records whose property region is
    known. *)
Theorem regionStats_totals data :
  let a := generateAnalytics data in
  sum_list_with (fun e => clients (snd e)) (regionStats a) = totalClients a
  ∧ sum_list_with (fun e => properties (snd e)) (regionStats a)
    = length (List.filter (fun r => bool_decide (propertyState (row r) ≠ Unknown)) data).
Proof.
  cbn [generateAnalytics regionStats totalClients].
  assert (H : ∀ stats : RegionStats, NoDup (map fst stats) →
            NoDup (map fst (foldl count_regions stats data))
            ∧ sum_list_with (fun e => clients (snd e)) (foldl count_regions stats data)
              = sum_list_with (fun e => clients (snd e)) stats + length data
            ∧ sum_list_with (fun e => properties (snd e)) (foldl count_regions stats data)
              = sum_list_with (fun e => properties (snd e)) stats
                + length (List.filter
                            (fun r => bool_decide (propertyState (row r) ≠ Unknown)) data)).
  { induction data as [|r data IH]; intros stats Hnd.
    - cbn. split; [done|]. split; lia.
    - cbn [foldl List.filter length].
      destruct (count_regions_sums stats r Hnd) as (Hnd' & Hc & Hp).
      destruct (IH _ Hnd') as (Hnd'' & Hc' & Hp').
      split; [done|]. rewrite Hc', Hp', Hc, Hp.
      destruct (bool_decide (propertyState (row r) ≠ Unknown)); cbn [length]; split; lia. }
  destruct (H [] (NoDup_nil_2)) as (Hnd & Hc & Hp). cbn in Hc, Hp.
  by rewrite Hc, Hp.
Qed.

(** ** The store follows the cache; the requests made *)

Lemma saveGeocodeCache_synced s :
  accepts_writes (localStorage s) = true →
  synced (saveGeocodeCache s).2 ∧ accepts_writes (localStorage (saveGeocodeCache s).2) = true.
Proof.
  intros Hw. unfold synced, saveGeocodeCache, setItem. rewrite Hw.
  cbn [snd localStorage loader accepts_writes]. split; [|done].
  unfold loadGeocodeCache, getItem. cbn [items]. rewrite lookup_insert_eq.
  by rewrite entries_roundtrip, Map_of_entries_to_list.
Qed.

Ltac unchanged :=
  split;
  [ intros ? ?; by split
  | exists []; rewrite app_nil_r; split; [done|split; [cbn; lia|constructor]] ].

Lemma geocodeAddress_effects w a s :
  (accepts_writes (localStorage s) = true → synced s →
   synced (geocodeAddress w a s).2
   ∧ accepts_writes (localStorage (geocodeAddress w a s).2) = true)
  ∧ ∃ new, requests (geocodeAddress w a s).2 = requests s ++ new
      ∧ length new ≤ 1 ∧ Forall (fun x => x ≠ "") new.
Proof.
  unfold geocodeAddress.
  destruct (String.eqb_spec a "") as [->|Ha]; [unchanged|].
  destruct (google w) as [geocode|]; [|unchanged].
  unfold mbind, M_bind, mret, M_ret, get_loader. cbn [fst snd].
  destruct (geocodeCache (loader s) !! JS.toLowerCase a); [unchanged|].
  unfold ask_geocoder.
  destruct (geocode (requests s) a) as [status results|]; cbn [fst snd].
  - unfold geocodeCache_set, mbind, M_bind, get_loader, set_loader.
    cbn [fst snd loader localStorage requests].
    match goal with |- context [saveGeocodeCache ?t] =>
      pose proof (saveGeocodeCache_synced t) as Hsync;
      assert (Hreq : requests (saveGeocodeCache t).2 = requests t)
        by (unfold saveGeocodeCache; by destruct (setItem _ _ _));
      destruct (saveGeocodeCache t) as [u s1]
    end.
    cbn [fst snd localStorage requests] in *. split.
    + intros Hw _. by apply Hsync.
    + exists [a]. rewrite Hreq. split; [done|]. split; [cbn; lia|]. by constructor.
  - split; [intros ? ?; by split|].
    exists [a]. split; [done|]. split; [cbn; lia|]. by constructor.
Qed.

Lemma geocodeRow_effects w r s :
  (accepts_writes (localStorage s) = true → synced s →
   synced (geocodeRow w r s).2
   ∧ accepts_writes (localStorage (geocodeRow w r s).2) = true)
  ∧ ∃ new, requests (geocodeRow w r s).2 = requests s ++ new
      ∧ length new ≤ 2 ∧ Forall (fun x => x ≠ "") new.
Proof.
  rewrite geocodeRow_lookups. cbv zeta. cbn [snd].
  set (c := if client_lookup r then geocodeAddress w (clientAddress r) s else (None, s)).
  assert (Hc : (accepts_writes (localStorage s) = true → synced s →
                synced c.2 ∧ accepts_writes (localStorage c.2) = true)
               ∧ ∃ new, requests c.2 = requests s ++ new
                   ∧ length new ≤ 1 ∧ Forall (fun x => x ≠ "") new).
  { unfold c. destruct (client_lookup r); [apply geocodeAddress_effects|unchanged]. }
  set (p := if property_lookup r then geocodeAddress w (propertyAddress r) c.2
            else (None, c.2)).
  assert (Hp : (accepts_writes (localStorage c.2) = true → synced c.2 →
                synced p.2 ∧ accepts_writes (localStorage p.2) = true)
               ∧ ∃ new, requests p.2 = requests c.2 ++ new
                   ∧ length new ≤ 1 ∧ Forall (fun x => x ≠ "") new).
  { unfold p. destruct (property_lookup r); [apply geocodeAddress_effects|unchanged]. }
  destruct Hc as (Hc1 & n1 & Hr1 & Hl1 & Hf1), Hp as (Hp1 & n2 & Hr2 & Hl2 & Hf2).
  split.
  - intros Hw Hs. destruct (Hc1 Hw Hs) as [Hs1 Hw1]. by apply Hp1.
  - exists (n1 ++ n2). rewrite Hr2, Hr1, <- app_assoc. split; [done|].
    rewrite length_app. split; [lia|]. by apply Forall_app.
Qed.

Lemma addGeocoding_effects w data : ∀ s,
  (accepts_writes (localStorage s) = true → synced s →
   synced (addGeocoding w data s).2
   ∧ accepts_writes (localStorage (addGeocoding w data s).2) = true)
  ∧ ∃ new, requests (addGeocoding w data s).2 = requests s ++ new
      ∧ length new ≤ 2 * length data ∧ Forall (fun x => x ≠ "") new.
Proof.
  induction data as [|r data IH]; intros s.
  - unchanged.
  - cbn [addGeocoding]. unfold mbind, M_bind, mret, M_ret.
    destruct (geocodeRow_effects w r s) as (Hr1 & n1 & Hq1 & Hl1 & Hf1).
    destruct (geocodeRow w r s) as [rec s1]. cbn [fst snd] in *.
    destruct (IH s1) as (Hd1 & n2 & Hq2 & Hl2 & Hf2).
    destruct (addGeocoding w data s1) as [recs s2]. cbn [fst snd] in *.
    split.
    + intros Hw Hs. destruct (Hr1 Hw Hs) as [Hs1 Hw1]. by apply Hd1.
    + exists (n1 ++ n2). rewrite Hq2, Hq1, <- app_assoc. split; [done|].
      rewrite length_app. cbn [length]. split; [lia|]. by apply Forall_app.
Qed.

(** X19: the store follows the cache.  When the store accepts writes and
    holds what the cache holds, it still does after the processing of any
    rows: a new instance constructed then loads the geocode cache of the
    running one. *)
Theorem processData_keeps_the_store_in_step w rawData yr s :
  accepts_writes (localStorage s) = true →
  synced s →
  synced (processData w rawData yr s).2
  ∧ geocodeCache (new_DataLoader (localStorage (processData w rawData yr s).2))
    = geocodeCache (loader (processData w rawData yr s).2).
Proof.
  intros Hw Hs. unfold processData.
  destruct (addGeocoding_effects w (map (cleanRow yr) (List.filter hasName rawData)) s)
    as [H _].
  destruct (H Hw Hs) as [Hs' _]. by split.
Qed.

Lemma fresh_sys_synced st : synced (fresh_sys st).
Proof. done. Qed.

Lemma processData_keeps_the_store_in_step_witness :
  accepts_writes (localStorage (fresh_sys empty_storage)) = true
  ∧ synced (fresh_sys empty_storage)
  ∧ synced (processData locating_world [row_ann; row_bob] None (fresh_sys empty_storage)).2.
Proof.
  split; [reflexivity|]. split; [apply fresh_sys_synced|].
  exact (proj1 (processData_keeps_the_store_in_step locating_world [row_ann; row_bob] None
                  (fresh_sys empty_storage) eq_refl (fresh_sys_synced _))).
Defined.

(** X20: processing sends at most two addresses per named row to the
    geocoding service, never an empty one, and keeps the log of the earlier
    requests. *)
Theorem processData_requests w rawData yr s :
  ∃ new, requests (processData w rawData yr s).2 = requests s ++ new
    ∧ length new ≤ 2 * length (processData w rawData yr s).1
    ∧ Forall (fun a => a ≠ "") new.
Proof.
  unfold processData.
  destruct (addGeocoding_effects w (map (cleanRow yr) (List.filter hasName rawData)) s)
    as (_ & new & Hq & Hl & Hf).
  exists new. split; [done|]. split; [|done].
  rewrite <- (length_map row), addGeocoding_rows. exact Hl.
Qed.
